(** * webToMarkdown: the site -> Markdown pipeline of server.js

    A shallow embedding of the backend (server.js): the JavaScript string
    primitives it relies on, the frontmatter composer, the chunker, the
    file cache and the request handler, followed by the properties of the
    specification that were checked against them. *)

From Stdlib Require Import ZArith List Ascii String Lia Bool DecimalPos DecimalZ.
From stdpp Require Import gmap list.

Local Open Scope Z_scope.
Local Open Scope list_scope.

(** ** JavaScript strings

    A JavaScript string is a sequence of UTF-16 code units; a code unit is
    modelled by its number. *)

Abbreviation jschar := N (only parsing).
Abbreviation jsstring := (list N) (only parsing).

Module Char.
Definition nl : jschar := 10%N.
Definition space : jschar := 32%N.
Definition dquote : jschar := 34%N.
Definition hash : jschar := 35%N.
Definition backslash : jschar := 92%N.
Definition bar : jschar := 124%N.
End Char.

(** An ASCII literal as a JavaScript string. *)
Definition lit (s : string) : jsstring :=
  map N_of_ascii (list_ascii_of_string s).

(** The class [\s] of a regular expression, which is also what [trim]
    removes: WhiteSpace and LineTerminator of ECMAScript. *)
Definition is_space (c : jschar) : bool :=
  ((9 <=? c) && (c <=? 13) || (c =? 32) || (c =? 160) || (c =? 5760)
   || (8192 <=? c) && (c <=? 8202) || (c =? 8232) || (c =? 8233)
   || (c =? 8239) || (c =? 8287) || (c =? 12288) || (c =? 65279))%N.

Definition is_nl (c : jschar) : bool := (c =? Char.nl)%N.

(** [Boolean(s)] for a string: the empty string is the only falsy one. *)
Definition truthy (s : jsstring) : bool :=
  match s with [] => false | _ :: _ => true end.

(** [a || b] on strings. *)
Definition str_or (a b : jsstring) : jsstring := if truthy a then a else b.

(** Length of the longest prefix of [s] whose code units satisfy [P]. *)
Fixpoint run_length (P : jschar -> bool) (s : jsstring) : nat :=
  match s with
  | c :: t => if P c then S (run_length P t) else O
  | [] => O
  end.

(** [s.split(re)] for a regular expression without capture groups that
    never matches the empty string. [m s'] is the length of the match of
    [re] anchored at the start of the suffix [s'], [O] when there is none.
    As in SplitMatcher the scan goes one code unit at a time: where [re]
    does not match, the code unit joins the current piece; where it
    matches, the piece is pushed and the scan resumes after the match
    ([skip] counts the code units of the match still to be passed). The
    last piece is pushed when the end is reached. *)
Fixpoint js_split_go (m : jsstring -> nat) (skip : nat) (acc s : jsstring)
  : list jsstring :=
  match s with
  | [] => [acc]
  | c :: t =>
      match skip with
      | S k => js_split_go m k acc t
      | O =>
          match m s with
          | O => js_split_go m O (acc ++ [c]) t
          | S k => acc :: js_split_go m k [] t
          end
      end
  end.

Definition js_split (m : jsstring -> nat) (s : jsstring) : list jsstring :=
  js_split_go m O [] s.

(** The match of [/\s+/] at the start of [s]. *)
Definition ws_match (s : jsstring) : nat := run_length is_space s.

(** The match of [/\n(?=#)|\n{2,}/] at the start of [s]: a newline that
    a [#] follows (the newline alone is consumed), or else a maximal run
    of two or more newlines. *)
Definition segment_match (s : jsstring) : nat :=
  match s with
  | c :: d :: _ =>
      if is_nl c then
        if (d =? Char.hash)%N then 1%nat
        else if is_nl d then run_length is_nl s
        else O
      else O
  | _ => O
  end.

(** [arr.join(sep)] *)
Fixpoint js_join (sep : jsstring) (l : list jsstring) : jsstring :=
  match l with
  | [] => []
  | [x] => x
  | x :: t => x ++ sep ++ js_join sep t
  end.

(** [arr.slice(start)]: a negative [start] counts from the end. *)
Definition js_slice_from {A} (start : Z) (l : list A) : list A :=
  let len := Z.of_nat (length l) in
  let k := if start <? 0 then Z.max (len + start) 0 else Z.min start len in
  drop (Z.to_nat k) l.

Fixpoint drop_spaces (s : jsstring) : jsstring :=
  match s with
  | c :: t => if is_space c then drop_spaces t else s
  | [] => []
  end.

(** [s.trim()] *)
Definition trim (s : jsstring) : jsstring :=
  rev (drop_spaces (rev (drop_spaces s))).

(** [s.split(/\s+/).filter(Boolean).length] *)
Definition word_count (s : jsstring) : Z :=
  Z.of_nat (length (List.filter truthy (js_split ws_match s))).

(** ** FrontmatterComposer *)

Record Meta := {
  title : jsstring;
  url : jsstring;
  domain : jsstring;
  crawled_at : jsstring;
  content_hash : jsstring;
  excerpt : jsstring
}.

(** [s.replace(/"/g, '\\"')] *)
Definition escape_quotes (s : jsstring) : jsstring :=
  flat_map (fun c => if (c =? Char.dquote)%N
                     then [Char.backslash; Char.dquote] else [c]) s.

(** [s.replace(/\n/g, ' ')] *)
Definition newlines_to_spaces (s : jsstring) : jsstring :=
  map (fun c => if is_nl c then Char.space else c) s.

(** The local [escape] of [addFrontmatter]. *)
Definition escape (s : jsstring) : jsstring :=
  newlines_to_spaces (escape_quotes (str_or s [])).

(** A line [key: "value"] of the block. *)
Definition fm_line (key : string) (value : jsstring) : jsstring :=
  lit key ++ lit ": " ++ [Char.dquote] ++ value ++ [Char.dquote].

Definition addFrontmatter (md : jsstring) (meta : Meta) : jsstring :=
  let fm := js_join [Char.nl]
    [ lit "---";
      fm_line "title" (escape (str_or (title meta) []));
      fm_line "url" (url meta);
      fm_line "domain" (domain meta);
      fm_line "crawled_at" (crawled_at meta);
      fm_line "content_hash" (content_hash meta);
      fm_line "excerpt" (escape (str_or (excerpt meta) []));
      lit "---";
      [] ] in
  fm ++ md.

(** ** Chunker *)

Record ChunkOpts := { target_words : Z; overlap_words : Z }.

Definition default_opts : ChunkOpts :=
  {| target_words := 1000; overlap_words := 150 |}.

(** An element of the local array [chunks]. *)
Record RawChunk := { text : jsstring; words : Z }.

(** The variables the loop of [chunkMarkdown] updates. *)
Record ChunkState := {
  chunks : list RawChunk;
  cur : jsstring;
  curWords : Z
}.

Definition chunk_init : ChunkState :=
  {| chunks := []; cur := []; curWords := 0 |}.

Definition pushCur (st : ChunkState) : ChunkState :=
  {| chunks := if truthy (trim (cur st))
               then chunks st ++ [{| text := trim (cur st); words := curWords st |}]
               else chunks st;
     cur := [];
     curWords := 0 |}.

Definition para_break : jsstring := [Char.nl; Char.nl].

(** One iteration of [for (const p of parts)]. *)
Definition chunk_step (opts : ChunkOpts) (st : ChunkState) (p : jsstring)
  : ChunkState :=
  let w := word_count p in
  if (curWords st + w >? target_words opts) && (curWords st >? 0) then
    let st1 := pushCur st in
    let curWordsArr := js_split ws_match (cur st1) in
    let overlap :=
      js_join [Char.space] (js_slice_from (- overlap_words opts) curWordsArr) in
    {| chunks := chunks st1;
       cur := overlap ++ para_break ++ p;
       curWords := word_count overlap + w |}
  else
    {| chunks := chunks st;
       cur := cur st ++ para_break ++ p;
       curWords := curWords st + w |}.

(** The state when the loop ends, before the last [pushCur]. *)
Definition chunk_loop (opts : ChunkOpts) (parts : list jsstring) : ChunkState :=
  fold_left (chunk_step opts) parts chunk_init.

Record Chunk := {
  chunk_index : nat;
  chunk_text : jsstring;
  approx_words : Z
}.

Definition number_chunks (cs : list RawChunk) : list Chunk :=
  imap (fun i c => {| chunk_index := i;
                      chunk_text := text c;
                      approx_words := words c |}) cs.

Definition segments (md : jsstring) : list jsstring :=
  js_split segment_match md.

Definition chunkMarkdown (md : jsstring) (opts : ChunkOpts) : list Chunk :=
  number_chunks (chunks (pushCur (chunk_loop opts (segments md)))).

(** ** Request parameters *)

(** [s.toLowerCase()]; only the letters A-Z matter for the comparisons
    with ['true'] and ['false'] that follow. *)
Definition to_lower (s : jsstring) : jsstring :=
  map (fun c => if ((65 <=? c) && (c <=? 90))%N then (c + 32)%N else c) s.

Definition str_eqb (a b : jsstring) : bool := bool_decide (a = b).

Definition is_digit (c : jschar) : bool := ((48 <=? c) && (c <=? 57))%N.

Fixpoint digits_value (acc : Z) (s : jsstring) : Z :=
  match s with
  | c :: t =>
      if is_digit c then digits_value (10 * acc + (Z.of_N c - 48)) t else acc
  | [] => acc
  end.

(** ** Numbers

    [target_words] and [overlap_words] are doubles that hold an integer or
    an infinity. Such a number is written as the integer it is, and the two
    infinities as [2^1024] and [- 2^1024], which is what rounding gives
    before the range of the exponent is applied. The chunker compares these
    numbers with word counts and slice positions only, and those are below
    the length of a string, so the order of [Z] is the order of the
    doubles. *)

Module Double.
Definition infinity : Z := 2 ^ 1024.

(** The integer of at most 53 significant bits that is nearest to [n];
    half way between two of them, the one with the even mantissa. *)
Definition round53 (n : Z) : Z :=
  let a := Z.abs n in
  let s := Z.log2 a - 52 in
  if s <=? 0 then n
  else
    let q := a / 2 ^ s in
    let r := a mod 2 ^ s in
    let half := 2 ^ (s - 1) in
    let q' := if (half <? r) || ((r =? half) && Z.odd q) then q + 1 else q in
    Z.sgn n * (q' * 2 ^ s).

(** The Number value of the integer [n]: the nearest double, an infinity
    beyond the largest one. *)
Definition of_Z (n : Z) : Z :=
  let v := round53 n in
  if infinity <=? Z.abs v then Z.sgn n * infinity else v.

(** [Math.floor(x * 0.2)]. The literal [0.2] is the double
    [3602879701896397 / 2^54]; the product of [x] and this double is
    rounded to 53 bits and then floored. An infinity stays what it is. *)
Definition floor_mul_02 (x : Z) : Z :=
  if Z.abs x =? infinity then x
  else round53 (x * 3602879701896397) / 2 ^ 54.
End Double.

(** [parseInt(s, 10)]: leading white space is skipped, a sign is read,
    then the longest run of decimal digits; the result is the Number
    value of the integer they write. [None] stands for NaN. *)
Definition parseInt10 (s : jsstring) : option Z :=
  let s1 := drop_spaces s in
  let '(sign, s2) :=
    match s1 with
    | c :: t =>
        if (c =? 45)%N then (-1, t)
        else if (c =? 43)%N then (1, t)
        else (1, s1)
    | [] => (1, s1)
    end in
  match s2 with
  | c :: _ =>
      if is_digit c then Some (Double.of_Z (sign * digits_value 0 s2)) else None
  | [] => None
  end.

Fixpoint uint_chars (d : Decimal.uint) : jsstring :=
  match d with
  | Decimal.Nil => []
  | Decimal.D0 d => 48%N :: uint_chars d
  | Decimal.D1 d => 49%N :: uint_chars d
  | Decimal.D2 d => 50%N :: uint_chars d
  | Decimal.D3 d => 51%N :: uint_chars d
  | Decimal.D4 d => 52%N :: uint_chars d
  | Decimal.D5 d => 53%N :: uint_chars d
  | Decimal.D6 d => 54%N :: uint_chars d
  | Decimal.D7 d => 55%N :: uint_chars d
  | Decimal.D8 d => 56%N :: uint_chars d
  | Decimal.D9 d => 57%N :: uint_chars d
  end.

(** The decimal text of an integer. *)
Definition integer_text (n : Z) : jsstring :=
  match Z.to_int n with
  | Decimal.Pos d => uint_chars d
  | Decimal.Neg d => 45%N :: uint_chars d
  end.

(** The multiple of [p] that is nearest to [x] among those whose Number
    value is [x]; of two equally near, the one with the even number of
    units. *)
Definition nearest_multiple (x p : Z) : option Z :=
  let below := x / p * p in
  let above := below + p in
  let ok_below := Double.of_Z below =? x in
  let ok_above := Double.of_Z above =? x in
  if ok_below && ok_above then
    if x - below <? above - x then Some below
    else if above - x <? x - below then Some above
    else if Z.even (below / p) then Some below else Some above
  else if ok_below then Some below
  else if ok_above then Some above
  else None.

(** The shortest decimal that denotes the double [x]: the largest [j] for
    which a multiple of [10^j] has [x] as its Number value, with that
    multiple. A multiple of [10^(j+1)] is one of [10^j], so the search
    goes up from [p = 10^j] and stops at the first [j] without one. *)
Fixpoint shortest_decimal (fuel : nat) (x p : Z) (j : nat) (best : Z * nat)
  : Z * nat :=
  match fuel with
  | O => best
  | S fuel' =>
      match nearest_multiple x p with
      | Some v => shortest_decimal fuel' x (10 * p) (S j) (v, j)
      | None => best
      end
  end.

(** [Number::toString] of a positive double that is an integer. Up to
    [2^53] every integer is a double and its own shortest decimal. From
    22 digits on the text is in exponent form. *)
Definition positive_text (x : Z) : jsstring :=
  if x <=? 2 ^ 53 then integer_text x
  else
    let '(v, j) := shortest_decimal 400 x 1 O (x, O) in
    let all := integer_text v in
    let n := length all in
    if (n <=? 21)%nat then all
    else
      let s := take (n - j) all in
      match s with
      | [] => all
      | [d] => d :: lit "e+" ++ integer_text (Z.of_nat (n - 1))
      | d :: ds => d :: 46%N :: ds ++ lit "e+" ++ integer_text (Z.of_nat (n - 1))
      end.

(** The text of a number in a string concatenation. *)
Definition number_to_string (n : Z) : jsstring :=
  if n =? 0 then lit "0"
  else if n =? Double.infinity then lit "Infinity"
  else if n =? - Double.infinity then lit "-Infinity"
  else if n <? 0 then 45%N :: positive_text (- n)
  else positive_text n.

(** The query string of [GET /]; [None] is an absent parameter. *)
Record Request := {
  q_url : option jsstring;
  q_render : option jsstring;
  q_target_words : option jsstring;
  q_raw : option jsstring
}.

(** [req.query.x || dflt] *)
Definition query_or (q : option jsstring) (dflt : jsstring) : jsstring :=
  match q with
  | Some v => str_or v dflt
  | None => dflt
  end.

(** [String(req.query.render || 'true').toLowerCase() !== 'false'] *)
Definition render_of (req : Request) : bool :=
  negb (str_eqb (to_lower (query_or (q_render req) (lit "true"))) (lit "false")).

(** [parseInt(req.query.target_words || '1000', 10) || 1000] *)
Definition target_words_of (req : Request) : Z :=
  match parseInt10 (query_or (q_target_words req) (lit "1000")) with
  | Some n => if n =? 0 then 1000 else n
  | None => 1000
  end.

(** [String(req.query.raw || 'false').toLowerCase() === 'true'] *)
Definition raw_of (req : Request) : bool :=
  str_eqb (to_lower (query_or (q_raw req) (lit "false"))) (lit "true").

(** [Math.min(250, Math.floor(target_words * 0.2))] *)
Definition overlap_for (tw : Z) : Z := Z.min 250 (Double.floor_mul_02 tw).

(** ** Data of the pipeline *)

Record Fetched := { html : jsstring; finalUrl : jsstring; status : Z }.

(** What Readability returns. A field that is null, undefined or empty is
    the empty string: the handler reads every field through [||] or [!]. *)
Record Article := {
  art_title : jsstring;
  art_content : jsstring;
  art_excerpt : jsstring
}.

Record ScrapeResult := {
  res_id : jsstring;
  res_meta : Meta;
  res_md : jsstring;
  res_chunks : list Chunk;
  res_fetched_status : Z
}.

(** The object [{ json, md }] that [cacheSet] serialises. *)
Record CacheEntry := { entry_json : ScrapeResult; entry_md : jsstring }.

(** A file [<key>.json] of the cache directory: the serialisation of an
    entry, or text that [JSON.parse] rejects. *)
Inductive CacheFile :=
| FileEntry (e : CacheEntry)
| FileUnreadable.

Inductive Body :=
| BJson (r : ScrapeResult)
| BMarkdown (md : jsstring)
| BError (msg : jsstring).

Record Response := { code : Z; body : Body }.

(** A call either returns or throws; an exception is represented by the
    text [String(err.message || err)] of it. *)
Inductive Outcome (A : Type) :=
| Returns (a : A)
| Throws (msg : jsstring).
Arguments Returns {A} a.
Arguments Throws {A} msg.

(** [isAllowed(url, userAgent)] of a parsed robots.txt. *)
Abbreviation Robots := (jsstring -> jsstring -> bool) (only parsing).

(** What a request meets outside the process. *)
Record Env := {
  fetchRobotsTxt : jsstring -> option Robots;
  fetchPage : jsstring -> bool -> Outcome Fetched;
  isoNow : jsstring;
  disk_writable : bool
}.

(** The libraries the handler calls. *)
Record Libs := {
  sha256hex : jsstring -> jsstring;
  (** [new URL(u).hostname]; [None] when [new URL(u)] throws *)
  url_hostname : jsstring -> option jsstring;
  (** [new Readability(new JSDOM(html, {url}).window.document).parse()] *)
  readability_parse : jsstring -> jsstring -> Outcome (option Article);
  (** [new TurndownService({codeBlockStyle: 'fenced'}).turndown(html)] *)
  turndown : jsstring -> jsstring;
  (** [new JSDOM(html).window.document.title] *)
  document_title : jsstring -> jsstring;
  (** [document.body.innerHTML]; [None] when there is no body *)
  body_innerHTML : jsstring -> option jsstring
}.

Inductive Event :=
| CallFetchPage (u : jsstring) (renderJS : bool)
| CallChunkMarkdown (md : jsstring) (opts : ChunkOpts).

(** The cache directory and the calls made so far. *)
Record World := {
  cache : gmap jsstring CacheFile;
  calls : list Event
}.

(** ** The handler monad: state, exceptions *)

Definition M (A : Type) : Type := World -> Outcome A * World.

#[global] Instance M_ret : MRet M := fun A a w => (Returns a, w).

#[global] Instance M_bind : MBind M := fun A B k c w =>
  match c w with
  | (Returns a, w') => k a w'
  | (Throws msg, w') => (Throws msg, w')
  end.

Definition throw {A} (msg : jsstring) : M A := fun w => (Throws msg, w).

(** [try { c } catch (err) { h(err) }] *)
Definition try_catch {A} (c : M A) (h : jsstring -> M A) : M A :=
  fun w =>
    match c w with
    | (Returns a, w') => (Returns a, w')
    | (Throws msg, w') => h msg w'
    end.

Definition record_call (e : Event) : M unit :=
  fun w => (Returns tt, {| cache := cache w; calls := calls w ++ [e] |}).

Definition lift_outcome {A} (o : Outcome A) : M A :=
  fun w => (o, w).

(** [res.status(code).json(...)] and [res.status(code).send(...)] *)
Definition respond (c : Z) (b : Body) : M Response :=
  mret {| code := c; body := b |}.

(** An assignment to a binding declared with [const]: the right-hand side
    has been evaluated, then a TypeError is thrown. *)
Definition assign_const {A} (v : A) : M A :=
  throw (lit "Assignment to constant variable.").

(** ** RobotsGate, ResultCache and the handler of [GET /] *)

Section Server.
Variable L : Libs.
Variable env : Env.

(** [fetchRobotsTxt] catches every error and returns [null] for it, so
    the check itself does not throw: no robots.txt means allowed. *)
Definition politeToCrawl (u : jsstring) : bool :=
  match fetchRobotsTxt env u with
  | None => true
  | Some rp => rp u (lit "site2md-api") || rp u (lit "*")
  end.

Definition extractMain (h u : jsstring) : Outcome (option Article) :=
  readability_parse L h u.

Definition htmlToMarkdown (h : jsstring) : jsstring := turndown L h.

(** A file that is absent or that [JSON.parse] rejects gives [null]. *)
Definition cacheGet (key : jsstring) : M (option CacheEntry) :=
  fun w =>
    (Returns match cache w !! key with
             | Some (FileEntry e) => Some e
             | _ => None
             end, w).

Definition cacheSet (key : jsstring) (obj : CacheEntry) : M bool :=
  fun w =>
    if disk_writable env
    then (Returns true,
          {| cache := <[key := FileEntry obj]> (cache w); calls := calls w |})
    else (Returns false, w).

(** [sha256hex(url + '|' + (render ? 'r' : 'n') + '|' + target_words)] *)
Definition cache_key (u : jsstring) (render : bool) (tw : Z) : jsstring :=
  sha256hex L (u ++ [Char.bar] ++ (if render then lit "r" else lit "n")
                 ++ [Char.bar] ++ number_to_string tw).

Definition serve (raw : bool) (md : jsstring) (json : ScrapeResult)
  : M Response :=
  if raw then respond 200 (BMarkdown md) else respond 200 (BJson json).

(** [meta] and [resultJson] for the Markdown body [mdContent], once
    the hostname of the final URL is known. *)
Definition meta_of (mdContent : jsstring) (article : Article)
    (final host now : jsstring) : Meta :=
  {| title := str_or (art_title article) [];
     url := final;
     domain := host;
     crawled_at := now;
     content_hash := sha256hex L mdContent;
     excerpt := str_or (art_excerpt article) [] |}.

(** The options of lines 290-293 for the target [tw]. *)
Definition chunk_opts_of (tw : Z) : ChunkOpts :=
  {| target_words := tw; overlap_words := overlap_for tw |}.

(** [resultJson] around the chunks that the chunker returned. *)
Definition result_with (chunks : list Chunk) (meta : Meta)
    (mdWithFM : jsstring) (fetched_status : Z) : ScrapeResult :=
  {| res_id := sha256hex L (url meta ++ [Char.bar] ++ content_hash meta);
     res_meta := meta;
     res_md := mdWithFM;
     res_chunks := chunks;
     res_fetched_status :=
       if fetched_status =? 0 then 200 else fetched_status |}.

(** [resultJson] as a function of what it is made from. *)
Definition result_of (mdContent : jsstring) (article : Article)
    (final host now : jsstring) (tw : Z) (fetched_status : Z) : ScrapeResult :=
  let meta := meta_of mdContent article final host now in
  let mdWithFM := addFrontmatter mdContent meta in
  result_with (chunkMarkdown mdWithFM (chunk_opts_of tw)) meta mdWithFM
    fetched_status.

(** [chunkMarkdown(md, opts)] called from the handler: the call is
    recorded with the options it is given, and answers what the chunker
    returns for them. *)
Definition call_chunkMarkdown (md : jsstring) (opts : ChunkOpts)
  : M (list Chunk) :=
  record_call (CallChunkMarkdown md opts);;
  mret (chunkMarkdown md opts).

(** From [htmlToMarkdown(article.content)] to the response. *)
Definition compose_and_store (u : jsstring) (raw : bool) (tw : Z)
    (cacheKey : jsstring) (fetched : Fetched) (article : Article)
  : M Response :=
  let mdContent := htmlToMarkdown (art_content article) in
  let final := str_or (finalUrl fetched) u in
  host ← match url_hostname L final with
         | Some h => mret h
         | None => throw (lit "Invalid URL")
         end;
  let meta := meta_of mdContent article final host (isoNow env) in
  let mdWithFM := addFrontmatter mdContent meta in
  chunks ← call_chunkMarkdown mdWithFM
             {| target_words := tw;
                overlap_words := Z.min 250 (Double.floor_mul_02 tw) |};
  let resultJson := result_with chunks meta mdWithFM (status fetched) in
  cacheSet cacheKey {| entry_json := resultJson; entry_md := mdWithFM |};;
  serve raw mdWithFM resultJson.

(** The branch [if (!article || !article.content)]: [article] was
    declared with [const], so the assignment of the fallback throws
    before the test that follows it. *)
Definition fallback_extraction (u : jsstring) (raw : bool) (tw : Z)
    (cacheKey : jsstring) (fetched : Fetched) : M Response :=
  let fallback :=
    {| art_title := str_or (document_title L (html fetched)) [];
       art_content := match body_innerHTML L (html fetched) with
                      | Some inner => inner
                      | None => []
                      end;
       art_excerpt := [] |} in
  article ← assign_const fallback;
  if negb (truthy (art_content article))
  then respond 422 (BError (lit "Could not extract content"))
  else compose_and_store u raw tw cacheKey fetched article.

(** The body of the [try] block. *)
Definition scrape (u : jsstring) (render raw : bool) (tw : Z) : M Response :=
  let cacheKey := cache_key u render tw in
  cached ← cacheGet cacheKey;
  match cached with
  | Some c => serve raw (entry_md c) (entry_json c)
  | None =>
      record_call (CallFetchPage u render);;
      fetched ← lift_outcome (fetchPage env u render);
      article ← lift_outcome
                  (extractMain (html fetched) (str_or (finalUrl fetched) u));
      match article with
      | Some a =>
          if truthy (art_content a)
          then compose_and_store u raw tw cacheKey fetched a
          else fallback_extraction u raw tw cacheKey fetched
      | None => fallback_extraction u raw tw cacheKey fetched
      end
  end.

Definition missing_url_msg : jsstring :=
  lit "Missing url query parameter. e.g. /?url=https://example.com".

(** [app.get('/', ...)]: the url is validated, robots.txt consulted, and
    the rest runs inside [try], whose [catch] answers 500. *)
Definition handler (req : Request) : M Response :=
  match q_url req with
  | None => respond 400 (BError missing_url_msg)
  | Some u =>
      if negb (truthy u) then respond 400 (BError missing_url_msg)
      else
        match url_hostname L u with
        | None => respond 400 (BError (lit "Invalid URL"))
        | Some _ =>
            if negb (politeToCrawl u)
            then respond 403 (BError (lit "Blocked by robots.txt"))
            else
              try_catch
                (scrape u (render_of req) (raw_of req) (target_words_of req))
                (fun msg => respond 500 (BError msg))
        end
  end.
End Server.

(** ** Sample collaborators

    Small instances of the libraries and of the outside world, on which
    the properties below are exercised. *)

Module Sample.
(** [extracted] is what Readability finds in every page and [inner] the
    markup of every body; the digest is the tagged text itself. *)
Definition libs (extracted : option Article) (inner : option jsstring) : Libs :=
  {| sha256hex := fun s => lit "h:" ++ s;
     url_hostname := fun u => if truthy u then Some (lit "example.com") else None;
     readability_parse := fun _ _ => Returns extracted;
     turndown := fun h => h;
     document_title := fun _ => lit "Doc";
     body_innerHTML := fun _ => inner |}.

Definition page : Fetched :=
  {| html := lit "<p>Hello world</p>";
     finalUrl := lit "https://example.com/";
     status := 200 |}.

Definition env (allowed : bool) (now : string) : Env :=
  {| fetchRobotsTxt := fun _ => Some (fun _ _ => allowed);
     fetchPage := fun _ _ => Returns page;
     isoNow := lit now;
     disk_writable := true |}.

Definition article : Article :=
  {| art_title := lit "Hello";
     art_content := lit "Hello world";
     art_excerpt := lit "Hello" |}.

Definition request (raw : string) : Request :=
  {| q_url := Some (lit "https://example.com");
     q_render := Some (lit "false");
     q_target_words := None;
     q_raw := Some (lit raw) |}.

Definition empty_world : World := {| cache := ∅; calls := [] |}.
End Sample.

(** * Vocabulary of the properties *)

(** Number of positions of [s] where a word starts; [prev_space] tells
    whether the code unit before [s] was white space. *)
Fixpoint word_starts (prev_space : bool) (s : jsstring) : nat :=
  match s with
  | [] => O
  | c :: t =>
      if is_space c then word_starts true t
      else (if prev_space then 1 else 0)%nat + word_starts false t
  end.

(** A string is blank when [trim] leaves nothing of it. *)
Definition nonblank (s : jsstring) : bool :=
  existsb (fun c => negb (is_space c)) s.

(** The flag to continue with after [s]. *)
Definition ends_in_space (b : bool) (s : jsstring) : bool :=
  match rev s with
  | [] => b
  | c :: _ => is_space c
  end.

(** Total number of words of a list of segments. *)
Definition total_words (parts : list jsstring) : Z :=
  fold_right (fun p n => word_count p + n) 0 parts.

Definition closes (opts : ChunkOpts) (st : ChunkState) (p : jsstring) : bool :=
  (curWords st + word_count p >? target_words opts) && (curWords st >? 0).

(** A buffer that counts words holds text. *)
Definition buffer_inv (st : ChunkState) : Prop :=
  0 <= curWords st /\ (0 < curWords st -> nonblank (cur st) = true).

(** The failing input of the overlap: two paragraphs of two words, a
    target of two words and an overlap of one word. *)
Definition two_paragraphs : jsstring :=
  lit "a b" ++ para_break ++ lit "c d".

(** [buf] ends with a segment of [parts], and [n] exceeds the target by no
    more than the words of that segment. *)
Definition ends_within (W : Z) (parts : list jsstring) (buf : jsstring) (n : Z)
  : Prop :=
  exists pre p, p ∈ parts /\ buf = pre ++ para_break ++ p /\ n <= W + word_count p.

Definition chunk_within (W : Z) (parts : list jsstring) (rc : RawChunk) : Prop :=
  exists buf, text rc = trim buf /\ ends_within W parts buf (words rc).

Definition size_inv (W : Z) (parts : list jsstring) (st : ChunkState) : Prop :=
  0 <= curWords st
  /\ Forall (chunk_within W parts) (chunks st)
  /\ (cur st = [] \/ ends_within W parts (cur st) (curWords st)).

(** The block that [addFrontmatter] puts before the body. *)
Definition frontmatter_block (meta : Meta) : jsstring := addFrontmatter [] meta.



(** A chunk has been closed, or the buffer counts words. *)
Definition will_emit (st : ChunkState) : Prop :=
  chunks st <> [] \/ 0 < curWords st.

(** What [escape] does to one code unit. *)
Definition escape_char (c : jschar) : jsstring :=
  if (c =? Char.dquote)%N then [Char.backslash; Char.dquote]
  else if is_nl c then [Char.space]
  else [c].

(** The block as section 4.6 of the specification words it: every string
    field escaped, and a blank line between the closing delimiter and the
    body. *)
Definition frontmatter_as_specified (md : jsstring) (meta : Meta) : jsstring :=
  lit "---" ++ [Char.nl]
  ++ fm_line "title" (escape (title meta)) ++ [Char.nl]
  ++ fm_line "url" (escape (url meta)) ++ [Char.nl]
  ++ fm_line "domain" (escape (domain meta)) ++ [Char.nl]
  ++ fm_line "crawled_at" (escape (crawled_at meta)) ++ [Char.nl]
  ++ fm_line "content_hash" (escape (content_hash meta)) ++ [Char.nl]
  ++ fm_line "excerpt" (escape (excerpt meta)) ++ [Char.nl]
  ++ lit "---" ++ [Char.nl]
  ++ [Char.nl]
  ++ md.

(** A page whose address holds a double quote. *)
Definition quoted_meta : Meta :=
  {| title := lit "T";
     url := lit "a" ++ [Char.dquote] ++ lit "b";
     domain := lit "d";
     crawled_at := lit "t";
     content_hash := lit "h";
     excerpt := lit "e" |}.

(** What a cache entry gives for a value of the raw flag. *)
Definition entry_body (raw : bool) (e : CacheEntry) : Body :=
  if raw then BMarkdown (entry_md e) else BJson (entry_json e).

(** Readability found nothing: [!article || !article.content]. *)
Definition no_content (a : option Article) : bool :=
  match a with
  | Some a => negb (truthy (art_content a))
  | None => true
  end.

(** The requests that reach the [try] block. *)
Definition passes_gates (L : Libs) (env : Env) (req : Request) (u : jsstring) : Prop :=
  q_url req = Some u /\ truthy u = true /\ is_Some (url_hostname L u)
  /\ politeToCrawl env u = true.

Definition lookup_entry (L : Libs) (req : Request) (u : jsstring) (w : World)
  : option CacheEntry :=
  match cache w !! cache_key L u (render_of req) (target_words_of req) with
  | Some (FileEntry e) => Some e
  | _ => None
  end.

(** The result a scrape of [page] builds for the article [a]. *)
Definition scraped (L : Libs) (env : Env) (req : Request) (u : jsstring)
    (page : Fetched) (a : Article) (host : jsstring) : ScrapeResult :=
  result_of L (htmlToMarkdown L (art_content a)) a
    (str_or (finalUrl page) u) host (isoNow env)
    (target_words_of req) (status page).

(** The four ways a request ends. *)
Inductive Run (L : Libs) (env : Env) (req : Request) (w : World)
  : Response -> World -> Prop :=
| RunRefused (c : Z) (msg : jsstring) :
    c = 400 \/ c = 403 ->
    (forall u, ~ passes_gates L env req u) ->
    Run L env req w {| code := c; body := BError msg |} w
| RunHit (u : jsstring) (e : CacheEntry) :
    passes_gates L env req u ->
    lookup_entry L req u w = Some e ->
    Run L env req w {| code := 200; body := entry_body (raw_of req) e |} w
| RunFailed (u msg : jsstring) :
    passes_gates L env req u ->
    lookup_entry L req u w = None ->
    Run L env req w {| code := 500; body := BError msg |}
      {| cache := cache w;
         calls := calls w ++ [CallFetchPage u (render_of req)] |}
| RunScraped (u : jsstring) (page : Fetched) (a : Article) (host : jsstring) :
    passes_gates L env req u ->
    lookup_entry L req u w = None ->
    fetchPage env u (render_of req) = Returns page ->
    extractMain L (html page) (str_or (finalUrl page) u) = Returns (Some a) ->
    truthy (art_content a) = true ->
    url_hostname L (str_or (finalUrl page) u) = Some host ->
    let r := scraped L env req u page a host in
    let e := {| entry_json := r; entry_md := res_md r |} in
    Run L env req w {| code := 200; body := entry_body (raw_of req) e |}
      {| cache :=
           if disk_writable env
           then <[cache_key L u (render_of req) (target_words_of req) := FileEntry e]>
                  (cache w)
           else cache w;
         calls := calls w ++ [CallFetchPage u (render_of req)]
                    ++ [CallChunkMarkdown (res_md r)
                          (chunk_opts_of (target_words_of req))] |}.

(** ** Sample runs *)

Module SampleRun.
Import Sample.

(** Readability finds the article. *)
Definition L : Libs := libs (Some article) None.
(** Readability finds nothing; the body has markup. *)
Definition L_body_only : Libs := libs None (Some (lit "<p>Hello world</p>")).
(** Readability finds nothing; the body is empty. *)
Definition L_nothing : Libs := libs None (Some []).

Definition u : jsstring := lit "https://example.com".

(** The result of a scrape of the sample page at time [now]. *)
Definition result (now : string) : ScrapeResult :=
  scraped L (env true now) (request "false") u page article (lit "example.com").

Definition stored_entry : CacheEntry :=
  {| entry_json := result "t1"; entry_md := res_md (result "t1") |}.

(** The world after a first scrape, made at time [t1]. *)
Definition warm_world : World :=
  (handler L (env true "t1") (request "false") empty_world).2.
End SampleRun.

(** ** Further vocabulary: chunks and segments *)

(** [x] occurs in [s] as a contiguous part. *)
Definition infix (x s : jsstring) : Prop := exists a b, s = a ++ x ++ b.

(** No newline of [s] is followed by a newline or by [#]: the pattern
    [/\n(?=#)|\n{2,}/] matches nowhere in [s]. *)
Fixpoint sep_free (s : jsstring) : bool :=
  match s with
  | c :: t =>
      match t with
      | d :: _ => negb (is_nl c && ((d =? Char.hash)%N || is_nl d)) && sep_free t
      | [] => true
      end
  | [] => true
  end.

(** The words that the chunks announce. *)
Definition total_approx_words (cs : list Chunk) : Z :=
  fold_right (fun c n => approx_words c + n) 0 cs.

Definition raw_total_words (cs : list RawChunk) : Z :=
  fold_right (fun c n => words c + n) 0 cs.

(** The counts kept by the loop are the counts of the texts. *)
Definition exact_inv (st : ChunkState) : Prop :=
  curWords st = word_count (cur st)
  /\ Forall (fun rc => words rc = word_count (text rc)) (chunks st).

(** Every segment with text among [done] is in a chunk or in the buffer. *)
Definition cover_inv (done : list jsstring) (st : ChunkState) : Prop :=
  forall p, p ∈ done -> nonblank p = true ->
    (exists rc, rc ∈ chunks st /\ infix (trim p) (text rc)) \/ infix p (cur st).

(** ** Further vocabulary: requests and the cache *)

(** The calls that a run from [w] to [w'] has added. *)
Definition new_calls (w w' : World) : list Event :=
  drop (length (calls w)) (calls w').

(** The text [url + '|' + (render ? 'r' : 'n') + '|' + target_words] that
    [cache_key] hashes. *)
Definition cache_key_text (u : jsstring) (render : bool) (tw : Z) : jsstring :=
  u ++ [Char.bar] ++ (if render then lit "r" else lit "n")
    ++ [Char.bar] ++ number_to_string tw.

(** In every entry of the cache the Markdown is the [md] of the result. *)
Definition cache_coherent (w : World) : Prop :=
  forall k e, cache w !! k = Some (FileEntry e) -> entry_md e = res_md (entry_json e).

(** The request ends in the [catch] with [msg], after the call of
    [fetchPage] and nothing else. *)
Definition reports (L : Libs) (env : Env) (req : Request) (u : jsstring)
    (w : World) (msg : jsstring) : Prop :=
  handler L env req w =
  (Returns {| code := 500; body := BError msg |},
   {| cache := cache w;
      calls := calls w ++ [CallFetchPage u (render_of req)] |}).

(** A page that [fetchPage] fails to deliver. *)
Definition failing_env (msg : string) : Env :=
  {| fetchRobotsTxt := fun _ => None;
     fetchPage := fun _ _ => Throws (lit msg);
     isoNow := lit "t1";
     disk_writable := true |}.

(** ** Further vocabulary: the frontmatter block *)

(** Number of newlines, of double quotes. *)
Definition count_nl (s : jsstring) : nat := length (List.filter is_nl s).

Definition count_quotes (s : jsstring) : nat :=
  length (List.filter (fun c => (c =? Char.dquote)%N) s).

(** No code unit of [s] is a newline. *)
Definition no_nl (s : jsstring) : bool := forallb (fun c => negb (is_nl c)) s.

(** The lines of the block, without the newline that ends the last one. *)
Definition frontmatter_lines (meta : Meta) : jsstring :=
  lit "---" ++ [Char.nl]
  ++ fm_line "title" (escape (title meta)) ++ [Char.nl]
  ++ fm_line "url" (url meta) ++ [Char.nl]
  ++ fm_line "domain" (domain meta) ++ [Char.nl]
  ++ fm_line "crawled_at" (crawled_at meta) ++ [Char.nl]
  ++ fm_line "content_hash" (content_hash meta) ++ [Char.nl]
  ++ fm_line "excerpt" (escape (excerpt meta)) ++ [Char.nl]
  ++ lit "---".

(** The first chunk, closed or still in the buffer, starts with [pre]. *)
Definition first_inv (pre : jsstring) (st : ChunkState) : Prop :=
  (chunks st = [] /\ exists rest, cur st = para_break ++ pre ++ rest)
  \/ (exists rc cs rest,
        chunks st = rc :: cs /\ text rc = trim (para_break ++ pre ++ rest)).

(** * The page fetch and the single browser

    [getBrowser] and [fetchPage] over the calls they make to [fetch] and
    to Playwright. What a call answers is given by [Net], as a function of
    the calls made before it, so that the same call may answer differently
    at different times. The option [timeout] is passed on unchanged and is
    part of what [Net] answers. *)

Module Browser.

Inductive Call :=
| CFetch (u : jsstring)
| CText
| CLaunch
| CNewContext
| CNewPage
| CGoto (u : jsstring)
| CWait
| CContent
| CPageUrl
| CClosePage
| CCloseContext.

#[global] Instance Call_eq_dec : EqDecision Call.
Proof. solve_decision. Defined.

(** The [res] of [fetch]: its [url] and [status]; the text is read by a
    call of its own. *)
Record HttpResponse := { res_url : jsstring; res_status : Z }.

Record Net := {
  net_fetch : list Call -> jsstring -> Outcome HttpResponse;
  net_text : list Call -> Outcome jsstring;
  net_launch : list Call -> Outcome unit;
  net_newContext : list Call -> Outcome unit;
  net_newPage : list Call -> Outcome unit;
  (** [page.goto]: the status of the response, [None] for a null response *)
  net_goto : list Call -> jsstring -> Outcome (option Z);
  net_wait : list Call -> Outcome unit;
  net_content : list Call -> Outcome jsstring;
  net_pageUrl : list Call -> Outcome jsstring;
  net_closePage : list Call -> Outcome unit;
  net_closeContext : list Call -> Outcome unit
}.

(** [browserPromise] is [null] or the promise of the one launch, which
    settles the same way each time it is awaited. *)
Record State := {
  browserPromise : option (Outcome unit);
  made : list Call
}.

Definition B (A : Type) : Type := State -> Outcome A * State.

#[global] Instance B_ret : MRet B := fun A a st => (Returns a, st).

#[global] Instance B_bind : MBind B := fun A C k c st =>
  match c st with
  | (Returns a, st') => k a st'
  | (Throws msg, st') => (Throws msg, st')
  end.

Definition rethrow {A} (msg : jsstring) : B A := fun st => (Throws msg, st).

(** [try { c } catch (err) { h(err) }] *)
Definition catching {A} (c : B A) (h : jsstring -> B A) : B A :=
  fun st =>
    match c st with
    | (Returns a, st') => (Returns a, st')
    | (Throws msg, st') => h msg st'
    end.

(** [try { await c } catch (_) {}] *)
Definition swallow (c : B unit) : B unit :=
  fun st => (Returns tt, snd (c st)).

(** One awaited call: it is recorded and answers by the calls before it. *)
Definition call {A} (c : Call) (answer : list Call -> Outcome A) : B A :=
  fun st =>
    (answer (made st),
     {| browserPromise := browserPromise st; made := made st ++ [c] |}).

Section Fetching.
Variable net : Net.

Definition getBrowser : B unit :=
  fun st =>
    match browserPromise st with
    | Some settled => (settled, st)
    | None =>
        let settled := net_launch net (made st) in
        (settled,
         {| browserPromise := Some settled; made := made st ++ [CLaunch] |})
    end.

Definition fetchPage (url : jsstring) (renderJS : bool) : B Fetched :=
  if negb renderJS then
    res ← call (CFetch url) (fun before => net_fetch net before url);
    text ← call CText (net_text net);
    mret {| html := text; finalUrl := res_url res; status := res_status res |}
  else
    getBrowser ;;
    call CNewContext (net_newContext net) ;;
    call CNewPage (net_newPage net) ;;
    catching
      (resp ← call (CGoto url) (fun before => net_goto net before url);
       call CWait (net_wait net) ;;
       html ← call CContent (net_content net);
       finalUrl ← call CPageUrl (net_pageUrl net);
       call CClosePage (net_closePage net) ;;
       call CCloseContext (net_closeContext net) ;;
       mret {| html := html; finalUrl := finalUrl;
               status := match resp with Some s => s | None => 200 end |})
      (fun err =>
         swallow (call CClosePage (net_closePage net)) ;;
         swallow (call CCloseContext (net_closeContext net)) ;;
         rethrow err).

(** Page fetches made one after another, each [(url, renderJS)]. *)
Fixpoint fetch_all (reqs : list (jsstring * bool)) (st : State) : State :=
  match reqs with
  | [] => st
  | (u, r) :: rest => fetch_all rest (snd (fetchPage u r st))
  end.
End Fetching.

(** The process as it starts, and after the [await getBrowser()] of the
    start-up. *)
Definition fresh : State := {| browserPromise := None; made := [] |}.
Definition started (net : Net) : State := snd (getBrowser net fresh).

(** How many times chromium was launched. *)
Definition launches (cs : list Call) : nat :=
  length (List.filter (fun c => bool_decide (c = CLaunch)) cs).

Definition browser_call (c : Call) : bool :=
  match c with
  | CFetch _ | CText => false
  | _ => true
  end.

Definition launched_once (st : State) : Prop :=
  match browserPromise st with
  | None => launches (made st) = O
  | Some _ => launches (made st) = 1%nat
  end.

(** The last two calls of [cs] are those closing the page and the
    context. *)
Definition closed_at_end (cs : list Call) : Prop :=
  exists before, cs = before ++ [CClosePage; CCloseContext].

(** A network on which every call succeeds. *)
Definition calm_net : Net :=
  {| net_fetch := fun _ u => Returns {| res_url := u; res_status := 200 |};
     net_text := fun _ => Returns (lit "<p>Hello</p>");
     net_launch := fun _ => Returns tt;
     net_newContext := fun _ => Returns tt;
     net_newPage := fun _ => Returns tt;
     net_goto := fun _ _ => Returns (Some 200);
     net_wait := fun _ => Returns tt;
     net_content := fun _ => Returns (lit "<p>Hello</p>");
     net_pageUrl := fun _ => Returns (lit "https://example.com/");
     net_closePage := fun _ => Returns tt;
     net_closeContext := fun _ => Returns tt |}.

(** A network on which no page can be opened. *)
Definition no_page_net : Net :=
  {| net_fetch := net_fetch calm_net;
     net_text := net_text calm_net;
     net_launch := net_launch calm_net;
     net_newContext := net_newContext calm_net;
     net_newPage := fun _ => Throws (lit "Target closed");
     net_goto := net_goto calm_net;
     net_wait := net_wait calm_net;
     net_content := net_content calm_net;
     net_pageUrl := net_pageUrl calm_net;
     net_closePage := net_closePage calm_net;
     net_closeContext := net_closeContext calm_net |}.
End Browser.

(** * The file name of the download (WebToMarkdown.tsx) *)

Module Frontend.
Fixpoint starts_with (p s : jsstring) : bool :=
  match p, s with
  | [], _ => true
  | a :: p', b :: s' => (a =? b)%N && starts_with p' s'
  | _ :: _, [] => false
  end.

(** [s.replace(/https?:\/\//, '')]: the first match, wherever it is, is
    removed. *)
Fixpoint strip_scheme (s : jsstring) : jsstring :=
  match s with
  | [] => []
  | c :: t =>
      if starts_with (lit "https://") s then drop 8 s
      else if starts_with (lit "http://") s then drop 7 s
      else c :: strip_scheme t
  end.

(** [s.replace(/\//g, '_')] *)
Definition underscore_slashes (s : jsstring) : jsstring :=
  map (fun c => if (c =? 47)%N then 95%N else c) s.

(** The [filename] of [downloadJSON]. *)
Definition filename (url : jsstring) : jsstring :=
  lit "scraped_" ++ underscore_slashes (strip_scheme url) ++ lit ".json".
End Frontend.

(** * Properties *)

(** ** White space, blank strings and words *)

Lemma truthy_rev (s : jsstring) : truthy (rev s) = truthy s.
Proof.
  destruct s as [|c t]; [reflexivity|]. simpl.
  destruct (rev t); reflexivity.
Qed.

Lemma truthy_drop_spaces (s : jsstring) :
  truthy (drop_spaces s) = nonblank s.
Proof.
  induction s as [|c t IH]; [reflexivity|]. simpl.
  destruct (is_space c); simpl; [exact IH | reflexivity].
Qed.

Lemma nonblank_app (a b : jsstring) :
  nonblank (a ++ b) = nonblank a || nonblank b.
Proof. unfold nonblank. apply existsb_app. Qed.

Lemma nonblank_rev (s : jsstring) : nonblank (rev s) = nonblank s.
Proof.
  induction s as [|c t IH]; [reflexivity|]. simpl.
  rewrite nonblank_app, IH. simpl. rewrite orb_false_r. apply orb_comm.
Qed.

Lemma nonblank_drop_spaces (s : jsstring) :
  nonblank (drop_spaces s) = nonblank s.
Proof.
  induction s as [|c t IH]; [reflexivity|]. simpl.
  destruct (is_space c) eqn:E; simpl; [exact IH | rewrite E; reflexivity].
Qed.

Lemma truthy_trim (s : jsstring) : truthy (trim s) = nonblank s.
Proof.
  unfold trim.
  rewrite truthy_rev, truthy_drop_spaces, nonblank_rev.
  apply nonblank_drop_spaces.
Qed.

Lemma is_nl_space (c : jschar) : is_nl c = true -> is_space c = true.
Proof.
  unfold is_nl, Char.nl. intros H. apply N.eqb_eq in H. subst c. reflexivity.
Qed.

Lemma nonblank_para_break : nonblank para_break = false.
Proof. reflexivity. Qed.

Lemma word_starts_pos (b : bool) (s : jsstring) :
  nonblank s = true -> (0 < word_starts true s)%nat.
Proof.
  clear b. induction s as [|c t IH]; simpl; [discriminate|].
  destruct (is_space c); simpl; [exact IH | lia].
Qed.

Lemma word_starts_blank (b : bool) (s : jsstring) :
  nonblank s = false -> word_starts b s = O.
Proof.
  revert b. induction s as [|c t IH]; intros b; simpl; [reflexivity|].
  destruct (is_space c); simpl; [apply IH | discriminate].
Qed.

Lemma ends_in_space_cons (b : bool) (c : jschar) (t : jsstring) :
  ends_in_space b (c :: t) = ends_in_space (is_space c) t.
Proof.
  unfold ends_in_space. simpl.
  destruct (rev t) as [|d r] eqn:E; reflexivity.
Qed.

Lemma word_starts_app (b : bool) (a s : jsstring) :
  word_starts b (a ++ s) = (word_starts b a + word_starts (ends_in_space b a) s)%nat.
Proof.
  revert b. induction a as [|c t IH]; intros b; [reflexivity|].
  rewrite ends_in_space_cons. simpl.
  destruct (is_space c) eqn:E; rewrite IH; lia.
Qed.

(** The pieces of [s.split(/\s+/)] that are not empty are the words. *)
Lemma ws_split_count (s : jsstring) : forall (skip : nat) (acc : jsstring),
  (skip <= run_length is_space s)%nat ->
  (0 < skip -> acc = [])%nat ->
  length (List.filter truthy (js_split_go ws_match skip acc s)) =
  ((if truthy acc then 1 else 0) + word_starts (negb (truthy acc)) s)%nat.
Proof.
  induction s as [|c t IH]; intros skip acc Hskip Hacc; simpl.
  - destruct (truthy acc); reflexivity.
  - destruct skip as [|k].
    + unfold ws_match at 1. simpl. destruct (is_space c) eqn:E.
      * simpl.
        pose proof (IH (run_length is_space t) [] (Nat.le_refl _) (fun _ => eq_refl)) as IH0.
        simpl in IH0. destruct (truthy acc); simpl; lia.
      * rewrite IH by (simpl; auto; lia).
        assert (truthy (acc ++ [c]) = true) as -> by (destruct acc; reflexivity).
        destruct (truthy acc); simpl; lia.
    + simpl in Hskip. destruct (is_space c) eqn:E; [|lia].
      rewrite Hacc by lia. rewrite IH by (auto; lia). reflexivity.
Qed.

Lemma word_count_starts (s : jsstring) :
  word_count s = Z.of_nat (word_starts true s).
Proof.
  unfold word_count, js_split.
  rewrite ws_split_count by (simpl; auto; lia). reflexivity.
Qed.

Lemma word_count_nonneg (s : jsstring) : 0 <= word_count s.
Proof. rewrite word_count_starts. lia. Qed.

Lemma word_count_pos_iff (s : jsstring) :
  0 < word_count s <-> nonblank s = true.
Proof.
  rewrite word_count_starts. split.
  - intros H. destruct (nonblank s) eqn:E; [reflexivity|].
    rewrite (word_starts_blank true s E) in H. lia.
  - intros H. pose proof (word_starts_pos true s H). lia.
Qed.

(** ** Splitting into segments *)

Lemma run_length_nl_cons (c : jschar) (t : jsstring) (k : nat) :
  (S k <= run_length is_nl (c :: t))%nat ->
  is_nl c = true /\ (k <= run_length is_nl t)%nat.
Proof. simpl. destruct (is_nl c); [split; [reflexivity | lia] | lia]. Qed.

Lemma segment_match_le (s : jsstring) :
  (segment_match s <= run_length is_nl s)%nat.
Proof.
  destruct s as [|c [|d t]]; simpl; try lia.
  destruct (is_nl c); [|lia].
  destruct (d =? Char.hash)%N; [lia|].
  destruct (is_nl d); lia.
Qed.

Lemma word_starts_drop_newlines (t : jsstring) : forall k : nat,
  (k <= run_length is_nl t)%nat ->
  word_starts true (drop k t) = word_starts true t.
Proof.
  induction t as [|c t IH]; intros [|k] Hk; try reflexivity.
  apply run_length_nl_cons in Hk as [Hc Hk].
  simpl. rewrite (is_nl_space c Hc). apply IH, Hk.
Qed.

Lemma total_words_cons (p : jsstring) (ps : list jsstring) :
  total_words (p :: ps) = word_count p + total_words ps.
Proof. reflexivity. Qed.

Lemma total_words_nonneg (ps : list jsstring) : 0 <= total_words ps.
Proof.
  induction ps as [|p ps IH]; simpl; [lia|].
  pose proof (word_count_nonneg p). lia.
Qed.

(** Segments are cut at newlines only, so no word is lost or cut. *)
Lemma split_go_total_words (s : jsstring) : forall (skip : nat) (acc : jsstring),
  (skip <= run_length is_nl s)%nat ->
  total_words (js_split_go segment_match skip acc s) =
  word_count (acc ++ drop skip s).
Proof.
  induction s as [|c t IH]; intros skip acc Hskip.
  - simpl. rewrite drop_nil, app_nil_r. lia.
  - destruct skip as [|k].
    + cbn [js_split_go]. pose proof (segment_match_le (c :: t)) as Hm.
      destruct (segment_match (c :: t)) as [|k] eqn:Em.
      * rewrite IH by lia. rewrite drop_0, <- app_assoc. reflexivity.
      * apply run_length_nl_cons in Hm as [Hc Hk].
        rewrite total_words_cons, IH by exact Hk. simpl app.
        rewrite !word_count_starts, word_starts_drop_newlines by exact Hk.
        rewrite word_starts_app. simpl.
        rewrite (is_nl_space c Hc). lia.
    + apply run_length_nl_cons in Hskip as [Hc Hk].
      cbn [js_split_go]. rewrite IH by exact Hk. reflexivity.
Qed.

Lemma segments_total_words (md : jsstring) :
  total_words (segments md) = word_count md.
Proof.
  unfold segments, js_split.
  rewrite split_go_total_words by (simpl; lia). reflexivity.
Qed.

(** The first piece starts with what was accumulated. *)
Lemma split_go_head (m : jsstring -> nat) (s : jsstring) : forall acc : jsstring,
  exists x rest, js_split_go m O acc s = (acc ++ x) :: rest.
Proof.
  induction s as [|c t IH]; intros acc.
  - exists [], []. simpl. rewrite app_nil_r. reflexivity.
  - cbn [js_split_go]. destruct (m (c :: t)) as [|k].
    + destruct (IH (acc ++ [c])) as (x & rest & ->).
      exists (c :: x), rest. rewrite <- app_assoc. reflexivity.
    + exists [], (js_split_go m k [] t). rewrite app_nil_r. reflexivity.
Qed.

Lemma split_go_step (m : jsstring -> nat) (acc : jsstring) (c : jschar)
    (t : jsstring) :
  m (c :: t) = O ->
  js_split_go m O acc (c :: t) = js_split_go m O (acc ++ [c]) t.
Proof. intros H. cbn [js_split_go]. rewrite H. reflexivity. Qed.


Lemma segments_nonempty (md : jsstring) : segments md <> [].
Proof.
  unfold segments, js_split.
  destruct (split_go_head segment_match md []) as (x & rest & ->). discriminate.
Qed.

(** ** The chunker's loop *)

(** [pushCur] has emptied [cur] when the overlap is read from it. *)
Lemma overlap_of_emptied_buffer (n : Z) :
  js_join [Char.space] (js_slice_from n (js_split ws_match [])) = [].
Proof.
  unfold js_slice_from, js_split. simpl js_split_go.
  destruct (Z.to_nat _) as [|[|k]]; reflexivity.
Qed.

Lemma chunk_step_close (opts : ChunkOpts) (st : ChunkState) (p : jsstring) :
  closes opts st p = true ->
  chunk_step opts st p =
  {| chunks := chunks (pushCur st);
     cur := para_break ++ p;
     curWords := word_count p |}.
Proof.
  unfold closes, chunk_step. intros ->.
  cbn [pushCur cur]. rewrite overlap_of_emptied_buffer. reflexivity.
Qed.

Lemma chunk_step_append (opts : ChunkOpts) (st : ChunkState) (p : jsstring) :
  closes opts st p = false ->
  chunk_step opts st p =
  {| chunks := chunks st;
     cur := cur st ++ para_break ++ p;
     curWords := curWords st + word_count p |}.
Proof. unfold closes, chunk_step. intros ->. reflexivity. Qed.

Lemma closes_true (opts : ChunkOpts) (st : ChunkState) (p : jsstring) :
  closes opts st p = true <->
  target_words opts < curWords st + word_count p /\ 0 < curWords st.
Proof. unfold closes. rewrite andb_true_iff. lia. Qed.

Lemma closes_false (opts : ChunkOpts) (st : ChunkState) (p : jsstring) :
  closes opts st p = false <->
  curWords st + word_count p <= target_words opts \/ curWords st <= 0.
Proof. unfold closes. rewrite andb_false_iff. lia. Qed.

(** Whatever the branch, the segment is at the end of the new buffer. *)
Lemma chunk_step_cur (opts : ChunkOpts) (st : ChunkState) (p : jsstring) :
  exists pre, cur (chunk_step opts st p) = pre ++ para_break ++ p.
Proof.
  destruct (closes opts st p) eqn:E.
  - rewrite chunk_step_close by exact E. exists []. reflexivity.
  - rewrite chunk_step_append by exact E. exists (cur st). reflexivity.
Qed.

Lemma buffer_inv_init : buffer_inv chunk_init.
Proof. split; simpl; lia. Qed.

Lemma chunk_step_buffer_inv (opts : ChunkOpts) (st : ChunkState) (p : jsstring) :
  buffer_inv st -> buffer_inv (chunk_step opts st p).
Proof.
  intros [Hn Hb]. pose proof (word_count_nonneg p) as Hp.
  destruct (closes opts st p) eqn:E.
  - rewrite chunk_step_close by exact E. split; cbn [cur curWords]; [lia|].
    intros Hw. rewrite nonblank_app. apply word_count_pos_iff in Hw.
    rewrite Hw. apply orb_true_r.
  - rewrite chunk_step_append by exact E. split; cbn [cur curWords]; [lia|].
    intros Hw. rewrite !nonblank_app.
    destruct (Z.ltb_spec 0 (curWords st)) as [Hc|Hc].
    + rewrite (Hb Hc). reflexivity.
    + assert (0 < word_count p) as Hw' by lia.
      apply word_count_pos_iff in Hw'. rewrite Hw'.
      rewrite !orb_true_r. reflexivity.
Qed.

Lemma chunk_loop_buffer_inv (opts : ChunkOpts) (parts : list jsstring) :
  forall st, buffer_inv st -> buffer_inv (fold_left (chunk_step opts) parts st).
Proof.
  induction parts as [|p ps IH]; intros st Hst; simpl; [exact Hst|].
  apply IH, chunk_step_buffer_inv, Hst.
Qed.

Lemma pushCur_chunks_nonblank (st : ChunkState) :
  nonblank (cur st) = true ->
  chunks (pushCur st) =
  chunks st ++ [{| text := trim (cur st); words := curWords st |}].
Proof. intros H. unfold pushCur. simpl. rewrite truthy_trim, H. reflexivity. Qed.

Lemma pushCur_chunks_blank (st : ChunkState) :
  nonblank (cur st) = false -> chunks (pushCur st) = chunks st.
Proof. intros H. unfold pushCur. simpl. rewrite truthy_trim, H. reflexivity. Qed.

Lemma number_chunks_nil (cs : list RawChunk) :
  number_chunks cs = [] <-> cs = [].
Proof.
  unfold number_chunks. split; intros H.
  - apply (f_equal length) in H. rewrite length_imap in H.
    destruct cs; [reflexivity | discriminate].
  - subst cs. reflexivity.
Qed.

(** C1 (code defect). At a chunk boundary the next buffer should start
    with the last [overlap_words] words of the chunk just closed. It never
    does: [pushCur] has emptied [cur] before the overlap is taken from it,
    so whatever the options, the buffer and the segment, the new buffer is
    the paragraph break and the segment, and it counts the words of the
    segment only. On two paragraphs of two words, with a target of two
    words and an overlap of one word, the second chunk is the second
    paragraph alone: the word [b] that ends the first chunk is not
    repeated. *)
Theorem chunk_boundary_drops_overlap :
  (forall opts st p,
     closes opts st p = true ->
     cur (chunk_step opts st p) = para_break ++ p
     /\ curWords (chunk_step opts st p) = word_count p)
  /\ chunkMarkdown two_paragraphs {| target_words := 2; overlap_words := 1 |} =
     [ {| chunk_index := 0; chunk_text := lit "a b"; approx_words := 2 |};
       {| chunk_index := 1; chunk_text := lit "c d"; approx_words := 2 |} ].
Proof.
  split.
  - intros opts st p E. rewrite chunk_step_close by exact E.
    split; reflexivity.
  - vm_compute. reflexivity.
Qed.

(** ** Chunk sizes *)

Lemma pushCur_size_inv (W : Z) (parts : list jsstring) (st : ChunkState) :
  size_inv W parts st -> Forall (chunk_within W parts) (chunks (pushCur st)).
Proof.
  intros (_ & Hcs & Hbuf). unfold pushCur. cbn [chunks].
  destruct (truthy (trim (cur st))) eqn:E; [|exact Hcs].
  apply Forall_app_2; [exact Hcs|]. apply Forall_singleton.
  destruct Hbuf as [Hnil|Hbuf].
  - rewrite Hnil in E. discriminate.
  - exists (cur st). split; [reflexivity | exact Hbuf].
Qed.

Lemma chunk_step_size_inv (opts : ChunkOpts) (parts : list jsstring)
    (st : ChunkState) (p : jsstring) :
  0 <= target_words opts ->
  p ∈ parts ->
  size_inv (target_words opts) parts st ->
  size_inv (target_words opts) parts (chunk_step opts st p).
Proof.
  intros HW Hp Hst. pose proof (word_count_nonneg p) as Hwp.
  destruct (closes opts st p) eqn:E.
  - rewrite chunk_step_close by exact E.
    split; [exact Hwp|]. split; [apply pushCur_size_inv, Hst|].
    right. exists [], p. cbn [cur curWords]. repeat split; [exact Hp | lia].
  - rewrite chunk_step_append by exact E.
    apply closes_false in E. destruct Hst as (Hn & Hcs & _).
    split; [cbn [curWords]; lia|]. split; [exact Hcs|].
    right. exists (cur st), p. cbn [cur curWords]. repeat split; [exact Hp | lia].
Qed.

Lemma chunk_loop_size_inv (opts : ChunkOpts) (parts : list jsstring) :
  0 <= target_words opts ->
  forall (todo : list jsstring) (st : ChunkState),
    (forall p, p ∈ todo -> p ∈ parts) ->
    size_inv (target_words opts) parts st ->
    size_inv (target_words opts) parts (fold_left (chunk_step opts) todo st).
Proof.
  intros HW. induction todo as [|p ps IH]; intros st Hin Hst; simpl; [exact Hst|].
  apply IH.
  - intros q Hq. apply Hin. right. exact Hq.
  - apply chunk_step_size_inv; [exact HW | apply Hin; left | exact Hst].
Qed.

(** While the target is not exceeded, the loop closes no chunk. *)
Lemma chunk_loop_no_close (opts : ChunkOpts) :
  forall (todo : list jsstring) (st : ChunkState),
    0 <= curWords st ->
    curWords st + total_words todo <= target_words opts ->
    chunks (fold_left (chunk_step opts) todo st) = chunks st
    /\ curWords (fold_left (chunk_step opts) todo st) =
       curWords st + total_words todo.
Proof.
  induction todo as [|p ps IH]; intros st Hn Hle; simpl; [split; [reflexivity | lia]|].
  pose proof (word_count_nonneg p) as Hwp.
  pose proof (total_words_nonneg ps) as Hps.
  rewrite total_words_cons in Hle.
  assert (closes opts st p = false) as E by (apply closes_false; lia).
  rewrite chunk_step_append by exact E.
  match goal with |- context [fold_left _ ps ?s] =>
    destruct (IH s) as [IH1 IH2]; cbn [curWords]; [lia | lia |] end.
  rewrite IH1, IH2. cbn [chunks curWords]. split; [reflexivity | lia].
Qed.

(** A blank document leaves the buffer blank and closes nothing. *)
Lemma chunk_loop_blank (opts : ChunkOpts) :
  forall (todo : list jsstring) (st : ChunkState),
    curWords st = 0 -> nonblank (cur st) = false ->
    total_words todo = 0 ->
    chunks (fold_left (chunk_step opts) todo st) = chunks st
    /\ nonblank (cur (fold_left (chunk_step opts) todo st)) = false.
Proof.
  induction todo as [|p ps IH]; intros st Hn Hb Ht; simpl; [split; [reflexivity | exact Hb]|].
  pose proof (word_count_nonneg p) as Hwp.
  pose proof (total_words_nonneg ps) as Hps.
  rewrite total_words_cons in Ht.
  assert (closes opts st p = false) as E by (apply closes_false; lia).
  rewrite chunk_step_append by exact E.
  match goal with |- context [fold_left _ ps ?s] =>
    destruct (IH s) as [IH1 IH2]; cbn [cur curWords]; [lia | | lia |] end.
  - rewrite !nonblank_app, Hb, nonblank_para_break. simpl.
    destruct (nonblank p) eqn:Ep; [|reflexivity].
    apply word_count_pos_iff in Ep. lia.
  - rewrite IH1. split; [reflexivity | exact IH2].
Qed.

Lemma size_inv_init (W : Z) (parts : list jsstring) : size_inv W parts chunk_init.
Proof. split; [simpl; lia|]. split; [apply Forall_nil | left]; reflexivity. Qed.

Lemma word_count_blank (s : jsstring) : nonblank s = false -> word_count s = 0.
Proof.
  intros H. rewrite word_count_starts, (word_starts_blank true s H). reflexivity.
Qed.

(** C6, as the code has it. For a target [W >= 0], every emitted chunk
    (so every chunk but the last, too) is the trimmed text of a buffer
    that ends with a segment [p] of the document, and its [approx_words]
    is at most [W] plus the words of [p]. A document whose total word
    count is at most [W] yields exactly one chunk when it contains a
    character that is not white space, and no chunk when it is blank. *)
Theorem chunk_sizing (md : jsstring) (opts : ChunkOpts) :
  0 <= target_words opts ->
  (forall c, c ∈ chunkMarkdown md opts ->
     exists pre p,
       p ∈ segments md
       /\ chunk_text c = trim (pre ++ para_break ++ p)
       /\ approx_words c <= target_words opts + word_count p)
  /\ (truthy (trim md) = true -> word_count md <= target_words opts ->
      length (chunkMarkdown md opts) = 1%nat)
  /\ (truthy (trim md) = false -> chunkMarkdown md opts = []).
Proof.
  intros HW. unfold chunkMarkdown, chunk_loop. rewrite truthy_trim.
  split; [|split].
  - intros c Hc. unfold number_chunks in Hc.
    apply elem_of_lookup_imap in Hc as (i & rc & -> & Hrc).
    apply list_elem_of_lookup_2 in Hrc.
    pose proof (chunk_loop_size_inv opts (segments md) HW (segments md)
                  chunk_init (fun p H => H) (size_inv_init _ _)) as Hinv.
    apply pushCur_size_inv in Hinv.
    rewrite Forall_forall in Hinv. specialize (Hinv rc Hrc).
    destruct Hinv as (buf & Htext & pre & p & Hp & Hbuf & Hle).
    exists pre, p. cbn [chunk_text approx_words].
    rewrite Htext, Hbuf. repeat split; [exact Hp | exact Hle].
  - intros Hnb Hle.
    destruct (chunk_loop_no_close opts (segments md) chunk_init) as [Hcs Hn].
    + simpl. lia.
    + rewrite segments_total_words. simpl. exact Hle.
    + pose proof (chunk_loop_buffer_inv opts (segments md) chunk_init
                    buffer_inv_init) as [_ Hb].
      rewrite segments_total_words in Hn. simpl in Hn.
      apply word_count_pos_iff in Hnb.
      rewrite pushCur_chunks_nonblank by (apply Hb; lia).
      rewrite Hcs. unfold number_chunks. rewrite length_imap. reflexivity.
  - intros Hb.
    destruct (chunk_loop_blank opts (segments md) chunk_init) as [Hcs Hcur];
      try reflexivity.
    + rewrite segments_total_words. apply word_count_blank, Hb.
    + rewrite pushCur_chunks_blank by exact Hcur. rewrite Hcs. reflexivity.
Qed.

Lemma chunk_sizing_witness :
  0 <= target_words default_opts
  /\ truthy (trim two_paragraphs) = true
  /\ word_count two_paragraphs <= target_words default_opts
  /\ length (chunkMarkdown two_paragraphs default_opts) = 1%nat.
Proof.
  assert (0 <= target_words default_opts) as HW by (simpl; lia).
  assert (truthy (trim two_paragraphs) = true) as Hnb by reflexivity.
  assert (word_count two_paragraphs <= target_words default_opts) as Hle
    by (vm_compute; discriminate).
  split; [exact HW|]. split; [exact Hnb|]. split; [exact Hle|].
  exact (proj1 (proj2 (chunk_sizing two_paragraphs default_opts HW)) Hnb Hle).
Defined.

(** A negative target, which [target_words=-1] in the query gives, makes
    every segment with words a chunk of its own: the bound above needs a
    target that is not negative. *)
Lemma negative_target_exceeds_bound :
  chunkMarkdown (lit "a" ++ para_break ++ lit "b") (chunk_opts_of (-1)) =
  [ {| chunk_index := 0; chunk_text := lit "a"; approx_words := 1 |};
    {| chunk_index := 1; chunk_text := lit "b"; approx_words := 1 |} ].
Proof. vm_compute. reflexivity. Qed.

(** C6 as stated fails on a document that is not empty but blank: a
    single space has no word, so its word count is below any target, and
    the chunker emits nothing for it. *)
Lemma blank_document_has_no_chunk :
  lit " " <> []
  /\ word_count (lit " ") <= target_words default_opts
  /\ chunkMarkdown (lit " ") default_opts = []
  /\ length (chunkMarkdown (lit " ") default_opts) <> 1%nat.
Proof. vm_compute. repeat split; discriminate. Qed.

(** ** The frontmatter block in the chunker *)

Lemma addFrontmatter_block (md : jsstring) (meta : Meta) :
  addFrontmatter md meta = frontmatter_block meta ++ md.
Proof. unfold frontmatter_block, addFrontmatter. rewrite app_nil_r. reflexivity. Qed.



(** The block starts with [---], a newline and [ti], and ends with a dash
    and a newline. *)
Lemma frontmatter_block_start (meta : Meta) :
  exists rest,
    frontmatter_block meta = 45%N :: 45%N :: 45%N :: 10%N :: 116%N :: 105%N :: rest.
Proof.
  unfold frontmatter_block, addFrontmatter, fm_line. simpl.
  eexists. reflexivity.
Qed.


Lemma frontmatter_first_segment (md : jsstring) (meta : Meta) :
  exists p0 rest,
    segments (addFrontmatter md meta) = p0 :: rest /\ nonblank p0 = true.
Proof.
  rewrite addFrontmatter_block.
  destruct (frontmatter_block_start meta) as [r ->].
  unfold segments, js_split. simpl app.
  rewrite !split_go_step by reflexivity. simpl app.
  destruct (split_go_head segment_match (105%N :: r ++ md)
              [45%N; 45%N; 45%N; 10%N; 116%N]) as (x & rest & ->).
  exists ([45%N; 45%N; 45%N; 10%N; 116%N] ++ x), rest.
  split; reflexivity.
Qed.

Lemma pushCur_will_emit (st : ChunkState) :
  buffer_inv st -> will_emit st -> chunks (pushCur st) <> [].
Proof.
  intros [_ Hb] [Hcs|Hw].
  - unfold pushCur. cbn [chunks]. destruct (truthy _); [|exact Hcs].
    destruct (chunks st); [congruence | discriminate].
  - rewrite pushCur_chunks_nonblank by (apply Hb, Hw).
    destruct (chunks st); discriminate.
Qed.

Lemma chunk_step_will_emit (opts : ChunkOpts) (st : ChunkState) (p : jsstring) :
  buffer_inv st -> will_emit st -> will_emit (chunk_step opts st p).
Proof.
  intros Hinv Hst. pose proof (word_count_nonneg p) as Hp.
  destruct (closes opts st p) eqn:E.
  - rewrite chunk_step_close by exact E. left. cbn [chunks].
    apply pushCur_will_emit; assumption.
  - rewrite chunk_step_append by exact E.
    destruct Hst as [Hcs|Hw]; [left; exact Hcs | right; cbn [curWords]; lia].
Qed.

Lemma chunk_loop_will_emit (opts : ChunkOpts) (todo : list jsstring) :
  forall st, buffer_inv st -> will_emit st ->
    will_emit (fold_left (chunk_step opts) todo st).
Proof.
  induction todo as [|p ps IH]; intros st Hinv Hst; simpl; [exact Hst|].
  apply IH; [apply chunk_step_buffer_inv | apply chunk_step_will_emit]; assumption.
Qed.

Lemma frontmatter_chunks_nonempty (md : jsstring) (meta : Meta) (opts : ChunkOpts) :
  chunkMarkdown (addFrontmatter md meta) opts <> [].
Proof.
  unfold chunkMarkdown, chunk_loop. rewrite number_chunks_nil.
  destruct (frontmatter_first_segment md meta) as (p0 & rest & -> & Hp0).
  cbn [fold_left].
  pose proof (chunk_step_buffer_inv opts chunk_init p0 buffer_inv_init) as Hinv.
  assert (will_emit (chunk_step opts chunk_init p0)) as Hst.
  { rewrite chunk_step_append by (apply closes_false; right; simpl; lia).
    right. cbn [curWords chunk_init]. apply word_count_pos_iff in Hp0. lia. }
  apply pushCur_will_emit.
  - apply chunk_loop_buffer_inv, Hinv.
  - apply chunk_loop_will_emit; assumption.
Qed.



(** ** The frontmatter block *)

Lemma str_or_nil (s : jsstring) : str_or s [] = s.
Proof. destruct s; reflexivity. Qed.

Lemma escape_flat_map (s : jsstring) : escape s = flat_map escape_char s.
Proof.
  unfold escape. rewrite str_or_nil. unfold newlines_to_spaces, escape_quotes.
  induction s as [|c t IH]; [reflexivity|].
  cbn [flat_map]. rewrite map_app, IH. unfold escape_char.
  destruct (N.eqb_spec c Char.dquote) as [->|Hc]; [reflexivity|].
  simpl. destruct (is_nl c); reflexivity.
Qed.

Lemma escape_no_newline (s : jsstring) : Char.nl ∉ escape s.
Proof.
  rewrite escape_flat_map. induction s as [|c t IH]; [apply not_elem_of_nil|].
  cbn [flat_map]. rewrite elem_of_app. intros [H|H]; [|exact (IH H)].
  unfold escape_char in H.
  destruct (N.eqb_spec c Char.dquote) as [->|Hc].
  - apply elem_of_cons in H as [H|H]; [discriminate|].
    apply elem_of_cons in H as [H|H]; [discriminate|].
    exact (not_elem_of_nil _ H).
  - destruct (is_nl c) eqn:E.
    + apply elem_of_cons in H as [H|H]; [discriminate|].
      exact (not_elem_of_nil _ H).
    + apply elem_of_cons in H as [H|H]; [|exact (not_elem_of_nil _ H)].
      subst c. discriminate.
Qed.

Lemma escape_quotes_escaped (s : jsstring) : forall pre post : jsstring,
  escape s = pre ++ Char.dquote :: post ->
  exists pre', pre = pre' ++ [Char.backslash].
Proof.
  rewrite escape_flat_map. induction s as [|c t IH]; intros pre post H.
  - destruct pre; discriminate.
  - cbn [flat_map] in H. unfold escape_char at 1 in H.
    destruct (N.eqb_spec c Char.dquote) as [->|Hc].
    + destruct pre as [|a [|b pre]]; cbn [app] in H.
      * discriminate.
      * exists []. injection H as <- _. reflexivity.
      * injection H as <- <- H. destruct (IH _ _ H) as [pre' ->].
        exists (Char.backslash :: Char.dquote :: pre'). reflexivity.
    + destruct pre as [|a pre]; cbn [app] in H.
      * destruct (is_nl c); injection H as H _; [discriminate | congruence].
      * assert (flat_map escape_char t = pre ++ Char.dquote :: post) as H'
          by (destruct (is_nl c); injection H as _ H; exact H).
        destruct (IH _ _ H') as [pre' ->].
        exists (a :: pre'). reflexivity.
Qed.

(** C7, as the code has it. The block is the opening delimiter, the six
    fields in the order title, url, domain, crawled_at, content_hash,
    excerpt, each on a line of its own, and the closing delimiter; one
    newline, not a blank line, separates it from the body. Only title and
    excerpt go through [escape], which replaces every double quote by a
    backslash and the quote, and every newline by one space; the url, the
    domain, the time stamp and the hash are embedded as they are. *)
Theorem frontmatter_layout (md : jsstring) (meta : Meta) :
  addFrontmatter md meta =
    lit "---" ++ [Char.nl]
    ++ fm_line "title" (escape (title meta)) ++ [Char.nl]
    ++ fm_line "url" (url meta) ++ [Char.nl]
    ++ fm_line "domain" (domain meta) ++ [Char.nl]
    ++ fm_line "crawled_at" (crawled_at meta) ++ [Char.nl]
    ++ fm_line "content_hash" (content_hash meta) ++ [Char.nl]
    ++ fm_line "excerpt" (escape (excerpt meta)) ++ [Char.nl]
    ++ lit "---" ++ [Char.nl]
    ++ md
  /\ (forall s, escape s = flat_map escape_char s)
  /\ (forall s, Char.nl ∉ escape s)
  /\ (forall s pre post, escape s = pre ++ Char.dquote :: post ->
        exists pre', pre = pre' ++ [Char.backslash]).
Proof.
  split; [|split; [exact escape_flat_map|split;
                   [exact escape_no_newline | exact escape_quotes_escaped]]].
  unfold addFrontmatter. cbn [js_join]. rewrite !str_or_nil.
  repeat rewrite <- app_assoc. reflexivity.
Qed.

(** C7 as stated fails on a page whose address holds a double quote: the
    url line carries the quote unescaped, and the body [x] follows the
    closing delimiter on the next line, with no blank line between. *)
Lemma frontmatter_url_not_escaped :
  addFrontmatter (lit "x") quoted_meta =
    lit "---" ++ [Char.nl]
    ++ lit "title: " ++ [Char.dquote] ++ lit "T" ++ [Char.dquote; Char.nl]
    ++ lit "url: " ++ [Char.dquote] ++ lit "a" ++ [Char.dquote] ++ lit "b"
       ++ [Char.dquote; Char.nl]
    ++ lit "domain: " ++ [Char.dquote] ++ lit "d" ++ [Char.dquote; Char.nl]
    ++ lit "crawled_at: " ++ [Char.dquote] ++ lit "t" ++ [Char.dquote; Char.nl]
    ++ lit "content_hash: " ++ [Char.dquote] ++ lit "h" ++ [Char.dquote; Char.nl]
    ++ lit "excerpt: " ++ [Char.dquote] ++ lit "e" ++ [Char.dquote; Char.nl]
    ++ lit "---" ++ [Char.nl]
    ++ lit "x"
  /\ addFrontmatter (lit "x") quoted_meta
     <> frontmatter_as_specified (lit "x") quoted_meta.
Proof. split; [reflexivity | vm_compute; discriminate]. Qed.

(** ** Runs of the handler *)

Arguments result_of : simpl never.
Arguments chunkMarkdown : simpl never.
Arguments addFrontmatter : simpl never.
Arguments cache_key : simpl never.
Arguments lit : simpl never.
Arguments missing_url_msg : simpl never.

Ltac unfold_handler :=
  unfold handler, scrape, fallback_extraction, compose_and_store,
    call_chunkMarkdown, serve,
    respond, try_catch, cacheGet, cacheSet, record_call, lift_outcome,
    assign_const, throw, extractMain, passes_gates, lookup_entry,
    mbind, mret, M_bind, M_ret in *.

Ltac run_handler :=
  unfold_handler; repeat (case_match; simplify_eq /=; try done).

Section Runs.
Variable L : Libs.
Variable env : Env.

Lemma handler_passes_gates (req : Request) (u : jsstring) (w : World) :
  passes_gates L env req u ->
  handler L env req w =
  try_catch (scrape L env u (render_of req) (raw_of req) (target_words_of req))
            (fun msg => respond 500 (BError msg)) w.
Proof.
  intros (Hu & Ht & [h Hh] & Hp). unfold handler.
  rewrite Hu, Ht, Hh, Hp. reflexivity.
Qed.

Lemma scrape_hit (u : jsstring) (render raw : bool) (tw : Z) (w : World)
    (e : CacheEntry) :
  cache w !! cache_key L u render tw = Some (FileEntry e) ->
  scrape L env u render raw tw w =
  (Returns {| code := 200; body := entry_body raw e |}, w).
Proof. intros H. unfold entry_body. run_handler. Qed.

(** Whatever the gates decide, a request whose key has an entry leaves
    the world as it was. *)
Lemma handler_hit_frame (req : Request) (u : jsstring) (w : World)
    (e : CacheEntry) :
  q_url req = Some u ->
  lookup_entry L req u w = Some e ->
  exists resp, handler L env req w = (Returns resp, w).
Proof.
  intros Hu He. unfold lookup_entry in He. unfold handler. rewrite Hu.
  destruct (truthy u); simpl; [|eexists; reflexivity].
  destruct (url_hostname L u); [|eexists; reflexivity].
  destruct (politeToCrawl env u); simpl; [|eexists; reflexivity].
  destruct (cache w !! _) as [[e'|]|] eqn:E; try discriminate.
  unfold try_catch. rewrite (scrape_hit _ _ _ _ _ _ E). eexists; reflexivity.
Qed.

(** Without content from Readability, the request ends in the [catch]. *)
Lemma handler_no_content (req : Request) (u : jsstring) (w : World)
    (page : Fetched) (a : option Article) :
  passes_gates L env req u ->
  lookup_entry L req u w = None ->
  fetchPage env u (render_of req) = Returns page ->
  extractMain L (html page) (str_or (finalUrl page) u) = Returns a ->
  no_content a = true ->
  handler L env req w =
  (Returns {| code := 500;
              body := BError (lit "Assignment to constant variable.") |},
   {| cache := cache w;
      calls := calls w ++ [CallFetchPage u (render_of req)] |}).
Proof.
  intros Hadm Hmiss Hfetch Hext Hno.
  rewrite (handler_passes_gates _ _ _ Hadm).
  unfold lookup_entry in Hmiss. unfold extractMain in Hext.
  unfold_handler. simpl.
  destruct (cache w !! _) as [[e'|]|] eqn:E; try discriminate;
    simpl; rewrite Hfetch; simpl; rewrite Hext;
    destruct a as [a|]; simpl in *;
    try (destruct (truthy (art_content a)); try discriminate); reflexivity.
Qed.
End Runs.

Lemma handler_run (L : Libs) (env : Env) (req : Request) (w : World) :
  exists resp w',
    handler L env req w = (Returns resp, w') /\ Run L env req w resp w'.
Proof.
  unfold handler.
  destruct (q_url req) as [u|] eqn:Hu.
  2:{ eexists _, _. split; [reflexivity|].
      apply RunRefused; [left; reflexivity|].
      intros u (H & _). congruence. }
  destruct (truthy u) eqn:Ht; simpl.
  2:{ eexists _, _. split; [reflexivity|].
      apply RunRefused; [left; reflexivity|].
      intros u' (H & H' & _). congruence. }
  destruct (url_hostname L u) as [h|] eqn:Hh.
  2:{ eexists _, _. split; [reflexivity|].
      apply RunRefused; [left; reflexivity|].
      intros u' (H & _ & [h H'] & _). congruence. }
  destruct (politeToCrawl env u) eqn:Hp; simpl.
  2:{ eexists _, _. split; [reflexivity|].
      apply RunRefused; [right; reflexivity|].
      intros u' (H & _ & _ & H'). congruence. }
  assert (passes_gates L env req u) as Hadm by (repeat split; eauto).
  destruct (lookup_entry L req u w) as [e|] eqn:Hlook.
  { unfold lookup_entry in Hlook.
    destruct (cache w !! _) as [[e'|]|] eqn:E; try discriminate.
    injection Hlook as ->. unfold try_catch. rewrite (scrape_hit _ _ _ _ _ _ _ _ E).
    eexists _, _. split; [reflexivity|].
    apply RunHit with u; [exact Hadm|]. unfold lookup_entry. rewrite E. reflexivity. }
  assert (cacheGet (cache_key L u (render_of req) (target_words_of req)) w
          = (Returns None, w)) as Hget.
  { unfold cacheGet, lookup_entry in *.
    destruct (cache w !! _) as [[e'|]|]; try discriminate; reflexivity. }
  unfold try_catch, scrape, mbind, M_bind. rewrite Hget.
  unfold record_call, lift_outcome. cbn [cache calls].
  destruct (fetchPage env u (render_of req)) as [page|msg] eqn:Hfetch.
  2:{ eexists _, _. split; [reflexivity|]. apply RunFailed; assumption. }
  destruct (extractMain L (html page) (str_or (finalUrl page) u))
    as [[a|]|msg] eqn:Hext.
  3:{ eexists _, _. split; [reflexivity|]. apply RunFailed; assumption. }
  2:{ eexists _, _. split; [reflexivity|]. apply RunFailed; assumption. }
  destruct (truthy (art_content a)) eqn:Hc.
  2:{ eexists _, _. split; [reflexivity|]. apply RunFailed; assumption. }
  unfold compose_and_store, mbind, M_bind, mret, M_ret, throw.
  destruct (url_hostname L (str_or (finalUrl page) u)) as [host|] eqn:Hhost.
  2:{ eexists _, _. split; [reflexivity|]. apply RunFailed; assumption. }
  unfold call_chunkMarkdown, mbind, M_bind, record_call, cacheSet, serve,
    respond, mret, M_ret.
  cbn [cache calls].
  pose proof (RunScraped L env req w u page a host Hadm Hlook Hfetch Hext Hc Hhost)
    as HR.
  cbv zeta in HR. unfold scraped, entry_body in HR. cbn [entry_md entry_json] in HR.
  rewrite <- app_assoc.
  destruct (disk_writable env); destruct (raw_of req);
    eexists _, _; (split; [reflexivity | exact HR]).
Qed.

Lemma handler_inv (L : Libs) (env : Env) (req : Request) (w w' : World)
    (resp : Response) :
  handler L env req w = (Returns resp, w') -> Run L env req w resp w'.
Proof.
  intros H. destruct (handler_run L env req w) as (resp0 & w0 & H0 & HR).
  rewrite H0 in H. injection H as <- <-. exact HR.
Qed.

Lemma passes_gates_unique (L : Libs) (env : Env) (req : Request) (u u' : jsstring) :
  passes_gates L env req u -> passes_gates L env req u' -> u = u'.
Proof. intros (H & _) (H' & _). congruence. Qed.

(** C2 (code defect). When Readability returns nothing, or an article
    without content, and the body of the page has markup, the fallback
    article should replace it and the request succeed. The handler
    answers 500 instead: [article] is a [const] binding, the assignment of
    the fallback throws, and the [catch] reports the TypeError. Nothing
    is chunked or cached. *)
Theorem fallback_body_is_lost (L : Libs) (env : Env) (req : Request)
    (u : jsstring) (w : World) (page : Fetched) (a : option Article)
    (inner : jsstring) :
  passes_gates L env req u ->
  lookup_entry L req u w = None ->
  fetchPage env u (render_of req) = Returns page ->
  extractMain L (html page) (str_or (finalUrl page) u) = Returns a ->
  no_content a = true ->
  body_innerHTML L (html page) = Some inner ->
  truthy inner = true ->
  handler L env req w =
  (Returns {| code := 500;
              body := BError (lit "Assignment to constant variable.") |},
   {| cache := cache w;
      calls := calls w ++ [CallFetchPage u (render_of req)] |}).
Proof.
  intros Hadm Hmiss Hfetch Hext Hno _ _.
  exact (handler_no_content L env req u w page a Hadm Hmiss Hfetch Hext Hno).
Qed.

(** C3 (code defect). When neither Readability nor the body gives any
    content, the answer should be 422 with [Could not extract content].
    The handler answers 500 for the same reason as above: the assignment
    that precedes the test of the fallback throws. *)
Theorem empty_extraction_is_not_422 (L : Libs) (env : Env) (req : Request)
    (u : jsstring) (w : World) (page : Fetched) (a : option Article) :
  passes_gates L env req u ->
  lookup_entry L req u w = None ->
  fetchPage env u (render_of req) = Returns page ->
  extractMain L (html page) (str_or (finalUrl page) u) = Returns a ->
  no_content a = true ->
  match body_innerHTML L (html page) with
  | Some inner => truthy inner = false
  | None => True
  end ->
  handler L env req w =
  (Returns {| code := 500;
              body := BError (lit "Assignment to constant variable.") |},
   {| cache := cache w;
      calls := calls w ++ [CallFetchPage u (render_of req)] |}).
Proof.
  intros Hadm Hmiss Hfetch Hext Hno _.
  exact (handler_no_content L env req u w page a Hadm Hmiss Hfetch Hext Hno).
Qed.

(** No request at all is answered with 422. *)
Lemma handler_never_422 (L : Libs) (env : Env) (req : Request) (w w' : World)
    (resp : Response) :
  handler L env req w = (Returns resp, w') ->
  code resp = 200 \/ code resp = 400 \/ code resp = 403 \/ code resp = 500.
Proof.
  intros H. apply handler_inv in H.
  destruct H as [c msg [H|H] _| | |]; simpl; auto.
Qed.

(** Once [fetchPage] has been called, the answer is 200 or 500. *)
Lemma handler_no_4xx_after_fetch (L : Libs) (env : Env) (req : Request)
    (w w' : World) (resp : Response) :
  handler L env req w = (Returns resp, w') ->
  calls w' <> calls w ->
  code resp = 200 \/ code resp = 500.
Proof.
  intros H Hcalls. apply handler_inv in H.
  destruct H as [c msg _ _| | |]; simpl; auto. congruence.
Qed.

(** A request that reaches the lookup and finds an entry is served it. *)
Lemma handler_hit (L : Libs) (env : Env) (req : Request) (u : jsstring)
    (w : World) (e : CacheEntry) :
  passes_gates L env req u ->
  lookup_entry L req u w = Some e ->
  handler L env req w =
  (Returns {| code := 200; body := entry_body (raw_of req) e |}, w).
Proof.
  intros Hadm He. rewrite (handler_passes_gates L env req u w Hadm).
  unfold lookup_entry in He.
  destruct (cache w !! _) as [[e'|]|] eqn:E; try discriminate.
  injection He as ->. unfold try_catch.
  rewrite (scrape_hit _ _ _ _ _ _ _ _ E). reflexivity.
Qed.

(** C5, as the code has it. A request whose key has a stored entry
    changes nothing: no call is made, to [fetchPage] in particular, and
    nothing is written. When it has also passed the checks that come
    before the lookup (a url that parses, robots.txt not forbidding it),
    the answer is the stored result: the stored Markdown for a raw
    request, the stored JSON otherwise. *)
Theorem cache_hit_short_circuit (L : Libs) (env : Env) (req : Request)
    (u : jsstring) (w : World) (e : CacheEntry) :
  q_url req = Some u ->
  lookup_entry L req u w = Some e ->
  (exists resp, handler L env req w = (Returns resp, w))
  /\ (passes_gates L env req u ->
      handler L env req w =
      (Returns {| code := 200; body := entry_body (raw_of req) e |}, w)).
Proof.
  intros Hu He. split.
  - exact (handler_hit_frame L env req u w e Hu He).
  - intros Hadm. exact (handler_hit L env req u w e Hadm He).
Qed.

(** ** Doubles: rounding and the fifth of the target *)

Lemma round53_small (n : Z) : Z.abs n < 2 ^ 53 -> Double.round53 n = n.
Proof.
  intros H. unfold Double.round53.
  assert (Z.log2 (Z.abs n) - 52 <= 0) as Hs.
  { destruct (Z.eq_dec (Z.abs n) 0) as [E|E]; [rewrite E; cbn; lia|].
    assert (Z.log2 (Z.abs n) < 53) by (apply Z.log2_lt_pow2; lia). lia. }
  apply Z.leb_le in Hs. rewrite Hs. reflexivity.
Qed.

Lemma round53_opp (n : Z) : Double.round53 (- n) = - Double.round53 n.
Proof.
  unfold Double.round53. rewrite Z.abs_opp, Z.sgn_opp.
  destruct (_ <=? 0); [reflexivity | ring].
Qed.

(** The exponent of the last place of [a]. *)
Lemma last_place (a : Z) :
  2 ^ 53 <= a ->
  0 < Z.log2 a - 52
  /\ 2 ^ 52 * 2 ^ (Z.log2 a - 52) <= a < 2 ^ 53 * 2 ^ (Z.log2 a - 52).
Proof.
  intros H. assert (0 < a) as Ha by lia.
  pose proof (Z.log2_spec a Ha) as [H1 H2].
  assert (53 <= Z.log2 a) as H3 by (apply Z.log2_le_pow2; lia).
  split; [lia|].
  rewrite <- !Z.pow_add_r by lia.
  replace (52 + (Z.log2 a - 52)) with (Z.log2 a) by lia.
  replace (53 + (Z.log2 a - 52)) with (Z.succ (Z.log2 a)) by lia.
  split; assumption.
Qed.

(** Rounding a positive integer of more than 53 bits: the result is the
    multiple of the last place below it or the next one, and the next
    one only when the rest is at least half a place. *)
Lemma round53_large (a : Z) :
  2 ^ 53 <= a ->
  exists q',
    Double.round53 a = q' * 2 ^ (Z.log2 a - 52)
    /\ ((q' = a / 2 ^ (Z.log2 a - 52)
         /\ a mod 2 ^ (Z.log2 a - 52) <= 2 ^ (Z.log2 a - 52 - 1))
        \/ (q' = a / 2 ^ (Z.log2 a - 52) + 1
            /\ 2 ^ (Z.log2 a - 52 - 1) <= a mod 2 ^ (Z.log2 a - 52)))
    /\ (a mod 2 ^ (Z.log2 a - 52) < 2 ^ (Z.log2 a - 52 - 1) ->
        q' = a / 2 ^ (Z.log2 a - 52)).
Proof.
  intros H. destruct (last_place a H) as [Hs _].
  unfold Double.round53. rewrite (Z.abs_eq a) by lia.
  set (s := Z.log2 a - 52) in *.
  destruct (s <=? 0) eqn:E; [apply Z.leb_le in E; lia|].
  rewrite Z.sgn_pos by lia. rewrite Z.mul_1_l.
  set (r := a mod 2 ^ s). set (q := a / 2 ^ s). set (h := 2 ^ (s - 1)).
  destruct (h <? r) eqn:E1; cbn [orb].
  - apply Z.ltb_lt in E1. exists (q + 1). split; [reflexivity|].
    split; [right; split; [reflexivity | lia] | lia].
  - apply Z.ltb_ge in E1. destruct (r =? h) eqn:E2; cbn [andb].
    + apply Z.eqb_eq in E2. destruct (Z.odd q).
      * exists (q + 1). split; [reflexivity|].
        split; [right; split; [reflexivity | lia] | lia].
      * exists q. split; [reflexivity|].
        split; [left; split; [reflexivity | lia] | reflexivity].
    + exists q. split; [reflexivity|].
      split; [left; split; [reflexivity | lia] | reflexivity].
Qed.

(** What is known of the rounding of [a] when it has between 54 and 106
    bits: [p] is its last place, a divisor of [2^54]. *)
Lemma round53_mid (a : Z) :
  2 ^ 53 <= a -> a < 2 ^ 106 ->
  exists p m q',
    0 < p /\ 0 < m /\ m * p = 2 ^ 54 /\ (exists h, p = 2 * h)
    /\ 2 ^ 52 * p <= a < 2 ^ 53 * p
    /\ Double.round53 a = q' * p
    /\ ((q' = a / p /\ 2 * (a mod p) <= p) \/ (q' = a / p + 1 /\ p <= 2 * (a mod p)))
    /\ (2 * (a mod p) < p -> q' = a / p).
Proof.
  intros Hlo Hhi. destruct (last_place a Hlo) as [Hs Hb].
  destruct (round53_large a Hlo) as (q' & Hr & Hc & Hd).
  set (s := Z.log2 a - 52) in *.
  assert (s <= 53) as Hs'.
  { assert (2 ^ (52 + s) < 2 ^ 106) as H.
    { rewrite Z.pow_add_r by lia. lia. }
    apply Z.pow_lt_mono_r_iff in H; lia. }
  assert (2 ^ s = 2 * 2 ^ (s - 1)) as Hh.
  { rewrite <- Z.pow_succ_r by lia. f_equal. lia. }
  exists (2 ^ s), (2 ^ (54 - s)), q'.
  assert (0 < 2 ^ s) by (apply Z.pow_pos_nonneg; lia).
  assert (0 < 2 ^ (54 - s)) by (apply Z.pow_pos_nonneg; lia).
  split; [assumption|]. split; [assumption|].
  split; [rewrite <- Z.pow_add_r by lia; f_equal; lia|].
  split; [exists (2 ^ (s - 1)); exact Hh|].
  split; [exact Hb|]. split; [exact Hr|].
  split; [destruct Hc as [[-> Hc]|[-> Hc]]; [left|right]; split; try reflexivity; lia|].
  intros H1. apply Hd. lia.
Qed.

Lemma floor_mul_02_pos (t : Z) :
  0 < t <= 2 ^ 50 -> Double.round53 (t * 3602879701896397) / 2 ^ 54 = t / 5.
Proof.
  intros Ht.
  change (2 ^ 50) with 1125899906842624 in Ht.
  destruct (Z_lt_le_dec (t * 3602879701896397) (2 ^ 53)) as [Hsm|Hbig].
  - rewrite round53_small by (rewrite Z.abs_eq; lia).
    change (2 ^ 53) with 9007199254740992 in Hsm.
    change (2 ^ 54) with 18014398509481984.
    rewrite Z.div_small by lia. symmetry. apply Z.div_small. lia.
  - set (a := t * 3602879701896397) in *.
    assert (a < 2 ^ 106) as Hhi.
    { change (2 ^ 106) with 81129638414606681695789005144064. lia. }
    destruct (round53_mid a Hbig Hhi)
      as (p & m & q' & Hp & Hm & Hmp & (h & Hh) & Hb & -> & Hc & _).
    change (2 ^ 52) with 4503599627370496 in Hb.
    change (2 ^ 53) with 9007199254740992 in *.
    change (2 ^ 54) with 18014398509481984 in *.
    pose proof (Z.div_mod a p ltac:(lia)) as Hdm.
    pose proof (Z.mod_pos_bound a p Hp) as Hr.
    pose proof (Z.div_mod t 5 ltac:(lia)) as Ht5.
    pose proof (Z.mod_pos_bound t 5 ltac:(lia)) as Hr5.
    set (q := a / p) in *. set (r := a mod p) in *.
    set (q0 := t / 5) in *. set (r0 := t mod 5) in *.
    symmetry. apply Z.div_unique with (r := q' * p - q0 * 18014398509481984).
    + left. assert (p <= 2251799813685248) as Hpb by nia.
      assert (q0 * m <= q) as Hq by nia.
      split.
      * destruct Hc as [[-> _]|[-> _]]; nia.
      * destruct Hc as [[-> Hc]|[-> Hc]]; nia.
    + ring.
Qed.

Lemma floor_mul_02_neg (t : Z) :
  0 < t <= 2 ^ 50 -> (- Double.round53 (t * 3602879701896397)) / 2 ^ 54 = (- t) / 5.
Proof.
  intros Ht.
  change (2 ^ 50) with 1125899906842624 in Ht.
  pose proof (Z.div_mod (- t) 5 ltac:(lia)) as Ht5.
  pose proof (Z.mod_pos_bound (- t) 5 ltac:(lia)) as Hr5.
  set (q0 := (- t) / 5) in *. set (r0 := (- t) mod 5) in *.
  destruct (Z_lt_le_dec (t * 3602879701896397) (2 ^ 53)) as [Hsm|Hbig].
  - rewrite round53_small by (rewrite Z.abs_eq; lia).
    change (2 ^ 53) with 9007199254740992 in Hsm.
    change (2 ^ 54) with 18014398509481984.
    symmetry. apply Z.div_unique with (r := - (t * 3602879701896397) - q0 * 18014398509481984).
    + left. lia.
    + ring.
  - set (a := t * 3602879701896397) in *.
    assert (a < 2 ^ 106) as Hhi.
    { change (2 ^ 106) with 81129638414606681695789005144064. lia. }
    destruct (round53_mid a Hbig Hhi)
      as (p & m & q' & Hp & Hm & Hmp & (h & Hh) & Hb & -> & Hc & Hd).
    change (2 ^ 52) with 4503599627370496 in Hb.
    change (2 ^ 53) with 9007199254740992 in *.
    change (2 ^ 54) with 18014398509481984 in *.
    pose proof (Z.div_mod a p ltac:(lia)) as Hdm.
    pose proof (Z.mod_pos_bound a p Hp) as Hr.
    assert (p <= 2251799813685248) as Hpb by nia.
    symmetry. apply Z.div_unique with (r := - (q' * p) - q0 * 18014398509481984).
    2: ring.
    left. split.
    + (* the rounded product is at most [- q0 * 2^54] *)
      destruct (Z.eq_dec r0 0) as [E0|E0].
      * (* [t] is a multiple of 5: the product is [P * 2^54 + P], which
           rounds down *)
        assert (a = (- q0 * m) * p + (- q0)) as Ha by nia.
        assert (0 <= - q0 < p) as Hq0 by nia.
        assert (a / p = - q0 * m) as Hq
          by (symmetry; apply Z.div_unique with (r := - q0); [left; lia | lia]).
        assert (a mod p = - q0) as Hm'
          by (symmetry; apply Z.mod_unique with (q := - q0 * m); [left; lia | lia]).
        assert (2 * (a mod p) < p) as Hlt by (rewrite Hm'; nia).
        rewrite (Hd Hlt), Hq. nia.
      * set (q := a / p) in *. set (r := a mod p) in *.
        assert (a <= (- q0 * m) * p) as Ha by nia.
        destruct Hc as [[-> _]|[-> Hc]]; nia.
    + set (q := a / p) in *. set (r := a mod p) in *.
      destruct Hc as [[-> Hc]|[-> Hc]]; nia.
Qed.

Lemma floor_mul_02_big (t : Z) :
  2 ^ 50 <= t -> 250 <= Double.round53 (t * 3602879701896397) / 2 ^ 54.
Proof.
  intros Ht.
  change (2 ^ 50) with 1125899906842624 in Ht.
  set (a := t * 3602879701896397).
  assert (2 ^ 101 <= a) as Ha
    by (change (2 ^ 101) with 2535301200456458802993406410752; lia).
  assert (2 ^ 53 <= a) as Hbig
    by (change (2 ^ 53) with 9007199254740992;
        change (2 ^ 101) with 2535301200456458802993406410752 in Ha; lia).
  destruct (last_place a Hbig) as [Hs Hb].
  destruct (round53_large a Hbig) as (q' & -> & Hc & _).
  set (s := Z.log2 a - 52) in *.
  assert (49 <= s) as Hs49.
  { assert (2 ^ 101 < 2 ^ (53 + s)) as H by (rewrite Z.pow_add_r by lia; lia).
    apply Z.pow_lt_mono_r_iff in H; lia. }
  assert (2 ^ 49 <= 2 ^ s) as Hp by (apply Z.pow_le_mono_r; lia).
  assert (0 < 2 ^ s) as Hpos by (apply Z.pow_pos_nonneg; lia).
  assert (2 ^ 52 <= a / 2 ^ s) as Hq.
  { apply Z.div_le_lower_bound; [exact Hpos | lia]. }
  apply Z.div_le_lower_bound; [reflexivity|].
  change (2 ^ 54) with 18014398509481984.
  change (2 ^ 52) with 4503599627370496 in *.
  change (2 ^ 49) with 562949953421312 in *.
  destruct Hc as [[-> _]|[-> _]]; nia.
Qed.

(** For every target from [- 2^50] on, infinite ones included, the
    overlap that the doubles give is the one of exact arithmetic. *)
Lemma overlap_for_exact (tw : Z) :
  - 2 ^ 50 <= tw ->
  Z.min 250 (Double.floor_mul_02 tw) = Z.min 250 (tw / 5).
Proof.
  intros Htw.
  assert (2 ^ 50 < Double.infinity) as Hinf
    by (unfold Double.infinity; apply Z.pow_lt_mono_r; lia).
  change (2 ^ 50) with 1125899906842624 in *.
  unfold Double.floor_mul_02.
  destruct (Z.abs tw =? Double.infinity) eqn:E.
  - apply Z.eqb_eq in E.
    assert (250 <= tw / 5) by (apply Z.div_le_lower_bound; lia). lia.
  - destruct (Z_lt_le_dec 1125899906842624 tw) as [Hbig|Hmid].
    + pose proof (floor_mul_02_big tw) as H.
      change (2 ^ 50) with 1125899906842624 in H. specialize (H ltac:(lia)).
      assert (250 <= tw / 5) by (apply Z.div_le_lower_bound; lia). lia.
    + destruct (Z.lt_trichotomy tw 0) as [Hneg|[->|Hpos]].
      * pose proof (floor_mul_02_neg (- tw)) as H.
        change (2 ^ 50) with 1125899906842624 in H. specialize (H ltac:(lia)).
        rewrite Z.opp_involutive in H.
        rewrite <- round53_opp in H.
        replace (- (- tw * 3602879701896397)) with (tw * 3602879701896397) in H
          by ring.
        rewrite H. reflexivity.
      * reflexivity.
      * pose proof (floor_mul_02_pos tw) as H.
        change (2 ^ 50) with 1125899906842624 in H. specialize (H ltac:(lia)).
        rewrite H. reflexivity.
Qed.

(** Far below zero the doubles part from exact arithmetic, a parameter
    beyond [2^53] is rounded to a double, one beyond the largest double is
    infinite, and from [2^53] on the text of a number is its shortest
    decimal. *)
Example doubles_far_from_zero :
  overlap_for (-22517998136852496) = -4503599627370499
  /\ -22517998136852496 / 5 = -4503599627370500
  /\ parseInt10 (lit "9007199254740993") = Some 9007199254740992
  /\ parseInt10 (lit "-22517998136852496") = Some (-22517998136852496)
  /\ Double.of_Z (10 ^ 309) = Double.infinity
  /\ overlap_for Double.infinity = 250
  /\ number_to_string (2 ^ 60) = lit "1152921504606847000"
  /\ number_to_string (2 ^ 70) = lit "1.1805916207174113e+21"
  /\ number_to_string Double.infinity = lit "Infinity".
Proof. vm_compute. repeat split; reflexivity. Qed.

(** C8. Every call of the chunker that a request makes receives the
    target of the request and, as overlap, the smaller of 250 and the
    floor of the product of the target and 0.2, a product of doubles. The
    overlap is therefore at most 250; for every target from [- 2^50] on,
    so for every positive one, it is the smaller of 250 and the floor of
    a fifth of the target in exact arithmetic. The chunks of a JSON
    answer are what this call returned. *)
Theorem overlap_is_capped (L : Libs) (env : Env) (req : Request)
    (w w' : World) (resp : Response) (md : jsstring) (opts : ChunkOpts) :
  handler L env req w = (Returns resp, w') ->
  CallChunkMarkdown md opts ∈ drop (length (calls w)) (calls w') ->
  target_words opts = target_words_of req
  /\ overlap_words opts = Z.min 250 (Double.floor_mul_02 (target_words opts))
  /\ overlap_words opts <= 250
  /\ (- 2 ^ 50 <= target_words opts ->
      overlap_words opts = Z.min 250 (target_words opts / 5))
  /\ (forall r, body resp = BJson r ->
      res_md r = md /\ res_chunks r = chunkMarkdown md opts).
Proof.
  intros H Hin. apply handler_inv in H.
  destruct H as [c msg _ _|u e _ _|u msg _ _|u page a host _ _ _ _ _ _ r e];
    cbn [calls] in Hin.
  - rewrite drop_all in Hin. inversion Hin.
  - rewrite drop_all in Hin. inversion Hin.
  - rewrite drop_app_length in Hin.
    apply list_elem_of_singleton in Hin. discriminate.
  - rewrite drop_app_length in Hin.
    apply elem_of_cons in Hin as [Hin|Hin]; [discriminate|].
    apply list_elem_of_singleton in Hin. injection Hin as -> ->.
    unfold chunk_opts_of, overlap_for. cbn [target_words overlap_words].
    split; [reflexivity|]. split; [reflexivity|]. split; [lia|].
    split; [apply overlap_for_exact|].
    intros r0 Hr0. cbn [body] in Hr0. unfold entry_body in Hr0.
    destruct (raw_of req); [discriminate|]. injection Hr0 as <-.
    split; reflexivity.
Qed.




(** The entries of the cache hold results with chunks. *)
Lemma json_answers_have_chunks (L : Libs) (env : Env) (req : Request)
    (w w' : World) (resp : Response) (r : ScrapeResult) :
  (forall k e, cache w !! k = Some (FileEntry e) -> res_chunks (entry_json e) <> []) ->
  handler L env req w = (Returns resp, w') ->
  (body resp = BJson r -> res_chunks r <> [])
  /\ (forall k e, cache w' !! k = Some (FileEntry e) -> res_chunks (entry_json e) <> []).
Proof.
  intros Hcache H. apply handler_inv in H.
  destruct H as [c msg _ _|u e Hadm Hhit|u msg _ _
                |u page a host _ _ _ _ _ _ r0 e0].
  - split; [discriminate | exact Hcache].
  - split; [|exact Hcache]. unfold entry_body. cbn [body].
    destruct (raw_of req); [discriminate|]. intros [= <-].
    unfold lookup_entry in Hhit.
    destruct (cache w !! _) as [[e'|]|] eqn:E; try discriminate.
    injection Hhit as ->. exact (Hcache _ _ E).
  - split; [discriminate | exact Hcache].
  - assert (res_chunks r0 <> []) as Hr0
      by (apply frontmatter_chunks_nonempty).
    split.
    + unfold entry_body. cbn [body]. destruct (raw_of req); [discriminate|].
      intros [= <-]. exact Hr0.
    + cbn [cache]. intros k e Hk. destruct (disk_writable env); [|exact (Hcache _ _ Hk)].
      destruct (decide (cache_key L u (render_of req) (target_words_of req) = k))
        as [Heq|Hne].
      * subst k. rewrite lookup_insert_eq in Hk. injection Hk as <-. exact Hr0.
      * rewrite lookup_insert_ne in Hk by exact Hne. exact (Hcache _ _ Hk).
Qed.

(** C10, as the code has it. The key of the cache does not depend on the
    raw flag, and an entry holds both the JSON result and the Markdown.
    So when a request has been answered 200 and the cache holds the entry
    of its key, a request that differs from it by the raw flag at most,
    and that robots.txt does not forbid, is served from that entry: the
    Markdown when it is raw, the JSON result otherwise. The first request
    received its part of the same entry. *)
Theorem raw_flag_shares_entry (L : Libs) (env1 env2 : Env)
    (req1 req2 : Request) (u : jsstring) (w0 w1 : World) (resp1 : Response)
    (e : CacheEntry) :
  q_url req1 = Some u ->
  q_url req2 = q_url req1 ->
  q_render req2 = q_render req1 ->
  q_target_words req2 = q_target_words req1 ->
  handler L env1 req1 w0 = (Returns resp1, w1) ->
  code resp1 = 200 ->
  lookup_entry L req1 u w1 = Some e ->
  politeToCrawl env2 u = true ->
  lookup_entry L req2 u w1 = Some e
  /\ body resp1 = entry_body (raw_of req1) e
  /\ handler L env2 req2 w1 =
     (Returns {| code := 200; body := entry_body (raw_of req2) e |}, w1).
Proof.
  intros Hu Hu2 Hr2 Ht2 H1 Hcode He Hrobots.
  assert (render_of req2 = render_of req1) as Hr
    by (unfold render_of; rewrite Hr2; reflexivity).
  assert (target_words_of req2 = target_words_of req1) as Ht
    by (unfold target_words_of; rewrite Ht2; reflexivity).
  assert (lookup_entry L req2 u w1 = Some e) as He2
    by (unfold lookup_entry in *; rewrite Hr, Ht; exact He).
  assert (passes_gates L env1 req1 u /\ body resp1 = entry_body (raw_of req1) e)
    as [Hadm Hbody].
  { apply handler_inv in H1.
    destruct H1 as [c msg [Hc|Hc] _|u' e' Hadm Hhit|u' msg _ _
                   |u' page a host Hadm Hmiss _ _ _ _ r e'].
    - simpl in Hcode. congruence.
    - simpl in Hcode. congruence.
    - assert (u' = u) as -> by (destruct Hadm as (H & _); congruence).
      split; [exact Hadm|]. rewrite Hhit in He. injection He as ->. reflexivity.
    - discriminate.
    - assert (u' = u) as -> by (destruct Hadm as (H & _); congruence).
      split; [exact Hadm|]. cbn [body]. unfold lookup_entry in He, Hmiss.
      cbn [cache] in He. destruct (disk_writable env1).
      + rewrite lookup_insert_eq in He. injection He as <-. reflexivity.
      + rewrite Hmiss in He. discriminate. }
  split; [exact He2|]. split; [exact Hbody|].
  assert (passes_gates L env2 req2 u) as Hadm2.
  { destruct Hadm as (_ & Htr & Hh & _).
    repeat split; [rewrite Hu2; exact Hu | exact Htr | exact Hh | exact Hrobots]. }
  exact (handler_hit L env2 req2 u w1 e Hadm2 He2).
Qed.

(** ** The properties on the sample collaborators *)

Lemma sample_passes_gates (L : Libs) (raw : string) (now : string) :
  url_hostname L SampleRun.u = Some (lit "example.com") ->
  passes_gates L (Sample.env true now) (Sample.request raw) SampleRun.u.
Proof.
  intros H. repeat split; try reflexivity. exists (lit "example.com"). exact H.
Defined.

Lemma fallback_body_is_lost_witness :
  handler SampleRun.L_body_only (Sample.env true "t1") (Sample.request "false")
    Sample.empty_world =
  (Returns {| code := 500;
              body := BError (lit "Assignment to constant variable.") |},
   {| cache := ∅; calls := [CallFetchPage SampleRun.u false] |}).
Proof.
  apply (fallback_body_is_lost SampleRun.L_body_only (Sample.env true "t1")
           (Sample.request "false") SampleRun.u Sample.empty_world Sample.page
           None (lit "<p>Hello world</p>")).
  - apply sample_passes_gates. reflexivity.
  - reflexivity.
  - reflexivity.
  - reflexivity.
  - reflexivity.
  - reflexivity.
  - reflexivity.
Defined.

Lemma empty_extraction_is_not_422_witness :
  handler SampleRun.L_nothing (Sample.env true "t1") (Sample.request "false")
    Sample.empty_world =
  (Returns {| code := 500;
              body := BError (lit "Assignment to constant variable.") |},
   {| cache := ∅; calls := [CallFetchPage SampleRun.u false] |}).
Proof.
  apply (empty_extraction_is_not_422 SampleRun.L_nothing (Sample.env true "t1")
           (Sample.request "false") SampleRun.u Sample.empty_world Sample.page
           None).
  - apply sample_passes_gates. reflexivity.
  - reflexivity.
  - reflexivity.
  - reflexivity.
  - reflexivity.
  - reflexivity.
Defined.

Lemma sample_lookup_warm (raw : string) :
  lookup_entry SampleRun.L (Sample.request raw) SampleRun.u SampleRun.warm_world
  = Some SampleRun.stored_entry.
Proof. vm_compute. reflexivity. Defined.

Lemma cache_hit_short_circuit_witness :
  handler SampleRun.L (Sample.env true "t2") (Sample.request "true")
    SampleRun.warm_world =
  (Returns {| code := 200;
              body := BMarkdown (entry_md SampleRun.stored_entry) |},
   SampleRun.warm_world).
Proof.
  refine (proj2 (cache_hit_short_circuit SampleRun.L (Sample.env true "t2")
                   (Sample.request "true") SampleRun.u SampleRun.warm_world
                   SampleRun.stored_entry _ _) _).
  - reflexivity.
  - exact (sample_lookup_warm "true").
  - apply sample_passes_gates. reflexivity.
Defined.

(** C5 as stated fails on a request that robots.txt forbids: its key has
    a stored entry, left by an earlier scrape, and the answer is 403, not
    the stored result. *)
Lemma cache_hit_blocked_by_robots :
  lookup_entry SampleRun.L (Sample.request "false") SampleRun.u
    SampleRun.warm_world = Some SampleRun.stored_entry
  /\ handler SampleRun.L (Sample.env false "t2") (Sample.request "false")
       SampleRun.warm_world =
     (Returns {| code := 403; body := BError (lit "Blocked by robots.txt") |},
      SampleRun.warm_world).
Proof. split; [exact (sample_lookup_warm "false") | reflexivity]. Qed.

Lemma sample_first_scrape (now : string) :
  handler SampleRun.L (Sample.env true now) (Sample.request "false")
    Sample.empty_world =
  (Returns {| code := 200; body := BJson (SampleRun.result now) |},
   (handler SampleRun.L (Sample.env true now) (Sample.request "false")
      Sample.empty_world).2).
Proof. reflexivity. Defined.

Lemma sample_first_scrape_calls (now : string) :
  calls (handler SampleRun.L (Sample.env true now) (Sample.request "false")
           Sample.empty_world).2
  <> calls Sample.empty_world.
Proof. discriminate. Defined.

Lemma overlap_is_capped_witness :
  target_words (chunk_opts_of 1000) = target_words_of (Sample.request "false")
  /\ overlap_words (chunk_opts_of 1000)
     = Z.min 250 (Double.floor_mul_02 (target_words (chunk_opts_of 1000)))
  /\ overlap_words (chunk_opts_of 1000) <= 250
  /\ (- 2 ^ 50 <= target_words (chunk_opts_of 1000) ->
      overlap_words (chunk_opts_of 1000)
      = Z.min 250 (target_words (chunk_opts_of 1000) / 5))
  /\ (forall r,
        body {| code := 200; body := BJson (SampleRun.result "t1") |} = BJson r ->
        res_md r = res_md (SampleRun.result "t1")
        /\ res_chunks r
           = chunkMarkdown (res_md (SampleRun.result "t1")) (chunk_opts_of 1000)).
Proof.
  apply (overlap_is_capped SampleRun.L (Sample.env true "t1")
           (Sample.request "false") Sample.empty_world SampleRun.warm_world
           {| code := 200; body := BJson (SampleRun.result "t1") |}
           (res_md (SampleRun.result "t1")) (chunk_opts_of 1000)).
  - exact (sample_first_scrape "t1").
  - apply elem_of_cons. right. apply elem_of_cons. left. reflexivity.
Defined.


Lemma raw_flag_shares_entry_witness :
  lookup_entry SampleRun.L (Sample.request "true") SampleRun.u
    SampleRun.warm_world = Some SampleRun.stored_entry
  /\ BJson (SampleRun.result "t1")
     = entry_body (raw_of (Sample.request "false")) SampleRun.stored_entry
  /\ handler SampleRun.L (Sample.env true "t2") (Sample.request "true")
       SampleRun.warm_world =
     (Returns {| code := 200;
                 body := entry_body (raw_of (Sample.request "true"))
                           SampleRun.stored_entry |},
      SampleRun.warm_world).
Proof.
  apply (raw_flag_shares_entry SampleRun.L
           (Sample.env true "t1") (Sample.env true "t2")
           (Sample.request "false") (Sample.request "true") SampleRun.u
           Sample.empty_world SampleRun.warm_world
           {| code := 200; body := BJson (SampleRun.result "t1") |}
           SampleRun.stored_entry).
  - reflexivity.
  - reflexivity.
  - reflexivity.
  - reflexivity.
  - exact (sample_first_scrape "t1").
  - reflexivity.
  - exact (sample_lookup_warm "false").
  - reflexivity.
Defined.

(** C10 as stated fails when robots.txt forbids the second request: the
    first request, not raw, is answered 200 and leaves its entry; the
    second, equal to it but raw, is answered 403 and not served from that
    entry. *)
Lemma raw_request_blocked_by_robots :
  handler SampleRun.L (Sample.env true "t1") (Sample.request "false")
    Sample.empty_world =
  (Returns {| code := 200; body := BJson (SampleRun.result "t1") |},
   SampleRun.warm_world)
  /\ lookup_entry SampleRun.L (Sample.request "true") SampleRun.u
       SampleRun.warm_world = Some SampleRun.stored_entry
  /\ handler SampleRun.L (Sample.env false "t2") (Sample.request "true")
       SampleRun.warm_world =
     (Returns {| code := 403; body := BError (lit "Blocked by robots.txt") |},
      SampleRun.warm_world).
Proof.
  split; [exact (sample_first_scrape "t1")|].
  split; [exact (sample_lookup_warm "true") | reflexivity].
Qed.

(** * Further properties of the code *)

(** ** [trim] *)

Lemma drop_spaces_split (s : jsstring) :
  exists pre, s = pre ++ drop_spaces s /\ nonblank pre = false.
Proof.
  induction s as [|c t (pre & Ht & Hpre)].
  - exists []. split; reflexivity.
  - simpl. destruct (is_space c) eqn:E.
    + exists (c :: pre). split; [simpl; rewrite <- Ht; reflexivity|].
      simpl. rewrite E. exact Hpre.
    + exists []. split; reflexivity.
Qed.

Lemma drop_spaces_head (s : jsstring) (c : jschar) (t : jsstring) :
  drop_spaces s = c :: t -> is_space c = false.
Proof.
  induction s as [|d s IH]; simpl; [discriminate|].
  destruct (is_space d) eqn:E; [exact IH|]. intros [= <- _]. exact E.
Qed.

Lemma trim_split (s : jsstring) :
  exists l r, s = l ++ trim s ++ r /\ nonblank l = false /\ nonblank r = false.
Proof.
  destruct (drop_spaces_split s) as (l & Hs & Hl).
  destruct (drop_spaces_split (rev (drop_spaces s))) as (r & Hr & Hrb).
  exists l, (rev r). unfold trim. split; [|split; [exact Hl|]].
  - rewrite <- rev_app_distr, <- Hr, rev_involutive. exact Hs.
  - rewrite nonblank_rev. exact Hrb.
Qed.

(** A text kept by [trim] starts and ends with a code unit that is not
    white space. *)
Lemma trim_ends (s : jsstring) :
  trim s = []
  \/ (exists c t, trim s = c :: t /\ is_space c = false)
     /\ (exists t d, trim s = t ++ [d] /\ is_space d = false).
Proof.
  destruct (trim s) as [|c0 t0] eqn:Etrim; [left; reflexivity|right].
  unfold trim in Etrim.
  destruct (drop_spaces (rev (drop_spaces s))) as [|d r] eqn:Er;
    [discriminate|].
  pose proof (drop_spaces_head _ _ _ Er) as Hd.
  split.
  - exists c0, t0. split; [reflexivity|].
    destruct (drop_spaces_split (rev (drop_spaces s))) as (pre & Hpre & _).
    rewrite Er in Hpre. apply (f_equal (@rev _)) in Hpre.
    rewrite rev_involutive, rev_app_distr, Etrim in Hpre.
    simpl in Hpre. destruct (drop_spaces s) as [|c1 t1] eqn:Es; [discriminate|].
    injection Hpre as -> _. exact (drop_spaces_head _ _ _ Es).
  - exists (rev r), d. split; [|exact Hd]. rewrite <- Etrim. reflexivity.
Qed.

Lemma ends_in_space_blank (l : jsstring) :
  nonblank l = false -> ends_in_space true l = true.
Proof.
  intros H. unfold ends_in_space.
  destruct (rev l) as [|c r] eqn:E; [reflexivity|].
  rewrite <- nonblank_rev, E in H. simpl in H.
  destruct (is_space c); [reflexivity | discriminate].
Qed.

Lemma word_count_blank_prefix (l s : jsstring) :
  nonblank l = false -> word_count (l ++ s) = word_count s.
Proof.
  intros H. rewrite !word_count_starts, word_starts_app.
  rewrite (word_starts_blank true l H), (ends_in_space_blank l H). reflexivity.
Qed.

Lemma word_count_blank_suffix (s r : jsstring) :
  nonblank r = false -> word_count (s ++ r) = word_count s.
Proof.
  intros H. rewrite !word_count_starts, word_starts_app.
  rewrite (word_starts_blank _ r H). lia.
Qed.

Lemma word_count_trim (s : jsstring) : word_count (trim s) = word_count s.
Proof.
  destruct (trim_split s) as (l & r & Hs & Hl & Hr).
  rewrite Hs at 2.
  rewrite (word_count_blank_prefix l _ Hl), (word_count_blank_suffix _ r Hr).
  reflexivity.
Qed.

Lemma nonblank_trim (s : jsstring) : nonblank (trim s) = nonblank s.
Proof.
  destruct (trim_split s) as (l & r & Hs & Hl & Hr).
  rewrite Hs at 2. rewrite !nonblank_app, Hl, Hr, orb_false_r. reflexivity.
Qed.

Lemma word_count_para_break (a p : jsstring) :
  word_count (a ++ para_break ++ p) = word_count a + word_count p.
Proof.
  rewrite !word_count_starts, word_starts_app. simpl. lia.
Qed.

(** ** What the chunks hold *)

Lemma number_chunks_lookup (cs : list RawChunk) (i : nat) (c : Chunk) :
  number_chunks cs !! i = Some c <->
  exists rc, cs !! i = Some rc
    /\ c = {| chunk_index := i; chunk_text := text rc; approx_words := words rc |}.
Proof.
  unfold number_chunks. rewrite list_lookup_imap.
  destruct (cs !! i) as [rc|]; simpl; split.
  - intros [= <-]. exists rc. split; reflexivity.
  - intros (rc' & [= <-] & ->). reflexivity.
  - discriminate.
  - intros (rc' & H & _). discriminate.
Qed.

Lemma pushCur_texts (st : ChunkState) (P : RawChunk -> Prop) :
  Forall P (chunks st) ->
  (nonblank (cur st) = true ->
   P {| text := trim (cur st); words := curWords st |}) ->
  Forall P (chunks (pushCur st)).
Proof.
  intros Hcs Hnew. destruct (nonblank (cur st)) eqn:E.
  - rewrite pushCur_chunks_nonblank by exact E.
    apply Forall_app_2; [exact Hcs|]. apply Forall_singleton, Hnew. reflexivity.
  - rewrite pushCur_chunks_blank by exact E. exact Hcs.
Qed.

Lemma exact_inv_init : exact_inv chunk_init.
Proof. split; [reflexivity | constructor]. Qed.

Lemma pushCur_exact (st : ChunkState) :
  exact_inv st ->
  Forall (fun rc => words rc = word_count (text rc)) (chunks (pushCur st)).
Proof.
  intros [Hn Hcs]. apply pushCur_texts; [exact Hcs|].
  intros _. cbn [words text]. rewrite word_count_trim. exact Hn.
Qed.

Lemma chunk_step_exact (opts : ChunkOpts) (st : ChunkState) (p : jsstring) :
  exact_inv st -> exact_inv (chunk_step opts st p).
Proof.
  intros Hst. destruct (closes opts st p) eqn:E.
  - rewrite chunk_step_close by exact E. split; cbn [cur curWords chunks].
    + change (para_break ++ p) with ([] ++ para_break ++ p).
      rewrite word_count_para_break. reflexivity.
    + apply pushCur_exact, Hst.
  - rewrite chunk_step_append by exact E. destruct Hst as [Hn Hcs].
    split; cbn [cur curWords chunks]; [|exact Hcs].
    rewrite word_count_para_break, Hn. reflexivity.
Qed.

Lemma chunk_loop_exact (opts : ChunkOpts) (todo : list jsstring) :
  forall st, exact_inv st -> exact_inv (fold_left (chunk_step opts) todo st).
Proof.
  induction todo as [|p ps IH]; intros st Hst; simpl; [exact Hst|].
  apply IH, chunk_step_exact, Hst.
Qed.

Lemma raw_total_words_app (a b : list RawChunk) :
  raw_total_words (a ++ b) = raw_total_words a + raw_total_words b.
Proof. induction a as [|c a IH]; simpl; [reflexivity|]. rewrite IH. lia. Qed.

Lemma pushCur_total (st : ChunkState) :
  buffer_inv st ->
  raw_total_words (chunks (pushCur st)) = raw_total_words (chunks st) + curWords st.
Proof.
  intros [Hn Hb]. destruct (nonblank (cur st)) eqn:E.
  - rewrite pushCur_chunks_nonblank by exact E.
    rewrite raw_total_words_app. simpl. lia.
  - rewrite pushCur_chunks_blank by exact E.
    destruct (Z.ltb_spec 0 (curWords st)) as [Hc|Hc]; [|lia].
    specialize (Hb Hc). discriminate.
Qed.

(** The words counted so far are those of the segments consumed. *)
Lemma chunk_loop_total (opts : ChunkOpts) (todo : list jsstring) :
  forall st, buffer_inv st ->
    raw_total_words (chunks (fold_left (chunk_step opts) todo st))
    + curWords (fold_left (chunk_step opts) todo st)
    = raw_total_words (chunks st) + curWords st + total_words todo.
Proof.
  induction todo as [|p ps IH]; intros st Hst; simpl; [lia|].
  rewrite IH by (apply chunk_step_buffer_inv, Hst).
  destruct (closes opts st p) eqn:E.
  - rewrite chunk_step_close by exact E. cbn [chunks curWords].
    rewrite pushCur_total by exact Hst. lia.
  - rewrite chunk_step_append by exact E. cbn [chunks curWords]. lia.
Qed.

Lemma number_chunks_total (cs : list RawChunk) :
  total_approx_words (number_chunks cs) = raw_total_words cs.
Proof.
  unfold number_chunks.
  assert (forall (g : nat -> nat),
            total_approx_words
              (imap (fun i c => {| chunk_index := g i; chunk_text := text c;
                                   approx_words := words c |}) cs)
            = raw_total_words cs) as H.
  { induction cs as [|c cs IH]; intros g; [reflexivity|].
    rewrite imap_cons. simpl. f_equal. exact (IH (fun i => g (S i))). }
  exact (H (fun i => i)).
Qed.

(** What holds of every trimmed buffer with text holds of every chunk. *)
Lemma chunk_loop_texts (opts : ChunkOpts) (P : RawChunk -> Prop) :
  (forall buf n, nonblank buf = true -> P {| text := trim buf; words := n |}) ->
  forall (todo : list jsstring) (st : ChunkState),
    Forall P (chunks st) ->
    Forall P (chunks (pushCur (fold_left (chunk_step opts) todo st))).
Proof.
  intros HP. induction todo as [|p ps IH]; intros st Hst; simpl.
  - apply pushCur_texts; [exact Hst|]. intros H. apply HP, H.
  - apply IH. destruct (closes opts st p) eqn:E.
    + rewrite chunk_step_close by exact E. cbn [chunks].
      apply pushCur_texts; [exact Hst|]. intros H. apply HP, H.
    + rewrite chunk_step_append by exact E. exact Hst.
Qed.

Lemma trim_nonblank_ends (buf : jsstring) :
  nonblank buf = true ->
  (exists a t, trim buf = a :: t /\ is_space a = false)
  /\ (exists t d, trim buf = t ++ [d] /\ is_space d = false).
Proof.
  intros H. destruct (trim_ends buf) as [E|E]; [|exact E].
  rewrite <- truthy_trim, E in H. discriminate.
Qed.

(** The chunks are numbered from 0 in the order of the list, and the text
    of a chunk is never empty: it starts and ends with a code unit that is
    not white space. *)
Theorem chunks_numbered_and_trimmed (md : jsstring) (opts : ChunkOpts)
    (i : nat) (c : Chunk) :
  chunkMarkdown md opts !! i = Some c ->
  chunk_index c = i
  /\ (exists a t, chunk_text c = a :: t /\ is_space a = false)
  /\ (exists t d, chunk_text c = t ++ [d] /\ is_space d = false).
Proof.
  unfold chunkMarkdown, chunk_loop. intros H.
  apply number_chunks_lookup in H as (rc & Hrc & ->).
  split; [reflexivity|]. cbn [chunk_text].
  apply list_elem_of_lookup_2 in Hrc.
  pose proof (chunk_loop_texts opts
    (fun rc => (exists a t, text rc = a :: t /\ is_space a = false)
               /\ (exists t d, text rc = t ++ [d] /\ is_space d = false))
    (fun buf n H => trim_nonblank_ends buf H)
    (segments md) chunk_init (Forall_nil_2 _)) as Hall.
  rewrite Forall_forall in Hall. exact (Hall rc Hrc).
Qed.

Lemma chunks_numbered_and_trimmed_witness :
  chunk_index {| chunk_index := 1; chunk_text := lit "c d"; approx_words := 2 |}
  = 1%nat
  /\ (exists a t, lit "c d" = a :: t /\ is_space a = false)
  /\ (exists t d, lit "c d" = t ++ [d] /\ is_space d = false).
Proof.
  apply (chunks_numbered_and_trimmed two_paragraphs
           {| target_words := 2; overlap_words := 1 |} 1
           {| chunk_index := 1; chunk_text := lit "c d"; approx_words := 2 |}).
  vm_compute. reflexivity.
Defined.

Lemma chunk_words_exact (md : jsstring) (opts : ChunkOpts) (c : Chunk) :
  c ∈ chunkMarkdown md opts -> approx_words c = word_count (chunk_text c).
Proof.
  unfold chunkMarkdown, chunk_loop. intros H.
  apply list_elem_of_lookup in H as [i H].
  apply number_chunks_lookup in H as (rc & Hrc & ->).
  apply list_elem_of_lookup_2 in Hrc. cbn [approx_words chunk_text].
  pose proof (pushCur_exact _ (chunk_loop_exact opts (segments md) chunk_init
                                 exact_inv_init)) as Hex.
  rewrite Forall_forall in Hex. exact (Hex rc Hrc).
Qed.

Lemma chunk_text_nonblank (md : jsstring) (opts : ChunkOpts) (c : Chunk) :
  c ∈ chunkMarkdown md opts -> nonblank (chunk_text c) = true.
Proof.
  unfold chunkMarkdown, chunk_loop. intros H.
  apply list_elem_of_lookup in H as [i H].
  apply number_chunks_lookup in H as (rc & Hrc & ->).
  apply list_elem_of_lookup_2 in Hrc. cbn [chunk_text].
  pose proof (chunk_loop_texts opts (fun rc => nonblank (text rc) = true)
    (fun buf n H => eq_trans (nonblank_trim buf) H)
    (segments md) chunk_init (Forall_nil_2 _)) as Hall.
  rewrite Forall_forall in Hall. exact (Hall rc Hrc).
Qed.

(** The count that a chunk announces is the number of words of its text,
    and it is at least one. *)
Theorem approx_words_is_exact (md : jsstring) (opts : ChunkOpts) (c : Chunk) :
  c ∈ chunkMarkdown md opts ->
  approx_words c = word_count (chunk_text c) /\ 0 < approx_words c.
Proof.
  intros H. pose proof (chunk_words_exact md opts c H) as Hex.
  split; [exact Hex|]. rewrite Hex.
  apply word_count_pos_iff. exact (chunk_text_nonblank md opts c H).
Qed.

Lemma approx_words_is_exact_witness :
  approx_words {| chunk_index := 0; chunk_text := lit "a b"; approx_words := 2 |}
  = word_count (lit "a b")
  /\ 0 < approx_words
           {| chunk_index := 0; chunk_text := lit "a b"; approx_words := 2 |}.
Proof.
  apply (approx_words_is_exact two_paragraphs
           {| target_words := 2; overlap_words := 1 |}).
  apply list_elem_of_lookup. exists 0%nat. vm_compute. reflexivity.
Defined.

Lemma length_le_total (cs : list Chunk) :
  Forall (fun c => 0 < approx_words c) cs ->
  Z.of_nat (length cs) <= total_approx_words cs.
Proof.
  induction cs as [|c cs IH]; intros H; [simpl; lia|].
  apply Forall_cons in H as [Hc Hcs]. specialize (IH Hcs).
  cbn [length total_approx_words fold_right] in *.
  fold (total_approx_words cs). lia.
Qed.

(** The chunks share out the words of the document: the counts they
    announce add up to the word count of the whole text, whatever the
    target and the overlap; so there are never more chunks than words. *)
Theorem chunks_keep_every_word (md : jsstring) (opts : ChunkOpts) :
  total_approx_words (chunkMarkdown md opts) = word_count md
  /\ Z.of_nat (length (chunkMarkdown md opts)) <= word_count md.
Proof.
  assert (total_approx_words (chunkMarkdown md opts) = word_count md) as Htotal.
  { unfold chunkMarkdown, chunk_loop. rewrite number_chunks_total.
    rewrite pushCur_total
      by (apply chunk_loop_buffer_inv, buffer_inv_init).
    rewrite chunk_loop_total by exact buffer_inv_init.
    rewrite segments_total_words. simpl. lia. }
  split; [exact Htotal|]. rewrite <- Htotal. apply length_le_total.
  apply Forall_forall. intros c Hc.
  rewrite (chunk_words_exact md opts c Hc).
  apply word_count_pos_iff. exact (chunk_text_nonblank md opts c Hc).
Qed.

(** ** No segment is lost *)

Lemma drop_spaces_keeps (u : jsstring) (c : jschar) (w : jsstring) :
  is_space c = false ->
  exists u', drop_spaces (u ++ c :: w) = u' ++ c :: w.
Proof.
  intros Hc. induction u as [|a u (u' & IH)]; simpl.
  - exists []. rewrite Hc. reflexivity.
  - destruct (is_space a); [exists u'; exact IH | exists (a :: u); reflexivity].
Qed.

Lemma trim_keeps (u x v : jsstring) :
  (exists c t, x = c :: t /\ is_space c = false) ->
  (exists t d, x = t ++ [d] /\ is_space d = false) ->
  exists u' v', trim (u ++ x ++ v) = u' ++ x ++ v'.
Proof.
  intros (c & t & Hx & Hc) (t' & d & Hx' & Hd).
  unfold trim.
  assert (exists u', drop_spaces (u ++ x ++ v) = u' ++ x ++ v) as (u' & ->).
  { rewrite Hx. simpl. apply drop_spaces_keeps, Hc. }
  assert (exists v', drop_spaces (rev (u' ++ x ++ v))
                     = v' ++ d :: rev t' ++ rev u') as (v' & ->).
  { rewrite !rev_app_distr, Hx', rev_app_distr. simpl.
    rewrite <- app_assoc. simpl. apply drop_spaces_keeps, Hd. }
  exists u', (rev v').
  rewrite rev_app_distr. simpl. rewrite rev_app_distr, !rev_involutive.
  rewrite Hx', <- !app_assoc. reflexivity.
Qed.

Lemma infix_trim (p buf : jsstring) :
  nonblank p = true -> infix p buf -> infix (trim p) (trim buf).
Proof.
  intros Hp (a & b & ->).
  destruct (trim_split p) as (l & r & Hs & _).
  destruct (trim_nonblank_ends p Hp) as [Hhead Hlast].
  destruct (trim_keeps (a ++ l) (trim p) (r ++ b) Hhead Hlast) as (u' & v' & H).
  exists u', v'. rewrite <- H. f_equal.
  rewrite Hs at 1. rewrite <- !app_assoc. reflexivity.
Qed.

Lemma infix_app_r (p s y : jsstring) : infix p s -> infix p (s ++ y).
Proof.
  intros (a & b & ->). exists a, (b ++ y). rewrite <- !app_assoc. reflexivity.
Qed.

Lemma infix_nonblank (p s : jsstring) :
  infix p s -> nonblank p = true -> nonblank s = true.
Proof.
  intros (a & b & ->) H. rewrite !nonblank_app, H, orb_true_r. reflexivity.
Qed.

Lemma pushCur_cover (done : list jsstring) (st : ChunkState) :
  cover_inv done st ->
  forall p, p ∈ done -> nonblank p = true ->
    exists rc, rc ∈ chunks (pushCur st) /\ infix (trim p) (text rc).
Proof.
  intros Hinv p Hp Hnb. destruct (Hinv p Hp Hnb) as [(rc & Hrc & Hin)|Hin].
  - exists rc. split; [|exact Hin]. unfold pushCur. cbn [chunks].
    destruct (truthy _); [apply elem_of_app; left|]; exact Hrc.
  - rewrite pushCur_chunks_nonblank by exact (infix_nonblank _ _ Hin Hnb).
    eexists. split; [apply elem_of_app; right; apply list_elem_of_singleton;
                     reflexivity|].
    cbn [text]. apply infix_trim; assumption.
Qed.

Lemma chunk_step_cover (opts : ChunkOpts) (done : list jsstring)
    (st : ChunkState) (p : jsstring) :
  cover_inv done st -> cover_inv (done ++ [p]) (chunk_step opts st p).
Proof.
  intros Hinv q Hq Hnb. apply elem_of_app in Hq as [Hq|Hq].
  - destruct (closes opts st p) eqn:E.
    + rewrite chunk_step_close by exact E. left. cbn [chunks].
      exact (pushCur_cover done st Hinv q Hq Hnb).
    + rewrite chunk_step_append by exact E. cbn [chunks cur].
      destruct (Hinv q Hq Hnb) as [H|H]; [left; exact H|right].
      apply infix_app_r, H.
  - apply list_elem_of_singleton in Hq as ->. right.
    destruct (chunk_step_cur opts st p) as [pre ->].
    exists (pre ++ para_break), []. rewrite app_nil_r, <- app_assoc. reflexivity.
Qed.

Lemma chunk_loop_cover (opts : ChunkOpts) (todo : list jsstring) :
  forall (done : list jsstring) (st : ChunkState),
    cover_inv done st ->
    cover_inv (done ++ todo) (fold_left (chunk_step opts) todo st).
Proof.
  induction todo as [|p ps IH]; intros done st Hinv; simpl.
  - rewrite app_nil_r. exact Hinv.
  - replace (done ++ p :: ps) with ((done ++ [p]) ++ ps)
      by (rewrite <- app_assoc; reflexivity).
    apply IH, chunk_step_cover, Hinv.
Qed.

(** Every segment of the document that has text is found, trimmed, in the
    text of a chunk: chunking drops no heading and no paragraph. *)
Theorem chunks_cover_segments (md : jsstring) (opts : ChunkOpts) (p : jsstring) :
  p ∈ segments md ->
  truthy (trim p) = true ->
  exists c, c ∈ chunkMarkdown md opts /\ infix (trim p) (chunk_text c).
Proof.
  rewrite truthy_trim. intros Hp Hnb.
  assert (cover_inv [] chunk_init) as H0 by (intros q Hq; inversion Hq).
  pose proof (chunk_loop_cover opts (segments md) [] chunk_init H0) as Hinv.
  destruct (pushCur_cover _ _ Hinv p Hp Hnb) as (rc & Hrc & Hin).
  apply list_elem_of_lookup in Hrc as [i Hrc].
  exists {| chunk_index := i; chunk_text := text rc; approx_words := words rc |}.
  split; [|exact Hin]. unfold chunkMarkdown, chunk_loop.
  apply list_elem_of_lookup. exists i. apply number_chunks_lookup.
  exists rc. split; [exact Hrc | reflexivity].
Qed.

Lemma chunks_cover_segments_witness :
  exists c, c ∈ chunkMarkdown two_paragraphs {| target_words := 2; overlap_words := 1 |}
            /\ infix (trim (lit "c d")) (chunk_text c).
Proof.
  apply (chunks_cover_segments two_paragraphs
           {| target_words := 2; overlap_words := 1 |} (lit "c d")).
  - apply list_elem_of_lookup. exists 1%nat. vm_compute. reflexivity.
  - reflexivity.
Defined.

(** ** Segments hold no separator *)

Lemma sep_free_prefix (a b : jsstring) :
  sep_free (a ++ b) = true -> sep_free a = true.
Proof.
  induction a as [|c a IH]; [reflexivity|].
  destruct a as [|d a]; [reflexivity|].
  cbn [app sep_free] in *. rewrite andb_true_iff.
  intros [H1 H2]. rewrite H1. exact (IH H2).
Qed.

Lemma sep_free_snoc (x : jsstring) (c d : jschar) :
  sep_free (x ++ [c]) = true ->
  negb (is_nl c && ((d =? Char.hash)%N || is_nl d)) = true ->
  sep_free (x ++ [c; d]) = true.
Proof.
  intros Hx Hcd. induction x as [|a x IH].
  - simpl. rewrite Hcd. reflexivity.
  - destruct x as [|b x].
    + simpl in *. rewrite andb_true_r in Hx. rewrite Hx, Hcd. reflexivity.
    + cbn [app sep_free] in *. apply andb_true_iff in Hx as [H1 H2].
      rewrite H1. exact (IH H2).
Qed.

Lemma segment_match_zero (c d : jschar) (t : jsstring) :
  segment_match (c :: d :: t) = O ->
  negb (is_nl c && ((d =? Char.hash)%N || is_nl d)) = true.
Proof.
  unfold segment_match. destruct (is_nl c) eqn:Ec; [|reflexivity].
  destruct (d =? Char.hash)%N; [discriminate|].
  destruct (is_nl d) eqn:Ed; [|reflexivity].
  simpl. rewrite Ec. discriminate.
Qed.

Lemma split_go_sep_free (s : jsstring) : forall (skip : nat) (acc : jsstring),
  (skip = O -> sep_free (acc ++ take 1 s) = true) ->
  (skip <> O -> acc = []) ->
  Forall (fun p => sep_free p = true) (js_split_go segment_match skip acc s).
Proof.
  induction s as [|c t IH]; intros skip acc H0 Hacc.
  - apply Forall_singleton. destruct skip as [|k].
    + specialize (H0 eq_refl). rewrite app_nil_r in H0. exact H0.
    + rewrite Hacc by discriminate. reflexivity.
  - destruct skip as [|k]; cbn [js_split_go].
    + specialize (H0 eq_refl). cbn [take] in H0.
      destruct (segment_match (c :: t)) as [|k] eqn:Em.
      * apply IH; [|congruence]. intros _.
        destruct t as [|d t]; cbn [take]; [rewrite app_nil_r; exact H0|].
        rewrite <- app_assoc. apply sep_free_snoc; [exact H0|].
        exact (segment_match_zero c d t Em).
      * apply Forall_cons. split; [exact (sep_free_prefix _ _ H0)|].
        apply IH; [|reflexivity]. intros _. destruct t; reflexivity.
    + rewrite Hacc by discriminate. apply IH; [|reflexivity].
      intros _. destruct t; reflexivity.
Qed.

(** Inside a segment no newline is followed by a newline or by [#]: a
    segment holds no blank line and no second heading. *)
Theorem segments_hold_no_separator (md : jsstring) :
  Forall (fun p => sep_free p = true) (segments md)
  /\ segments md <> [].
Proof.
  split; [|apply segments_nonempty].
  unfold segments, js_split. apply split_go_sep_free; [|congruence].
  intros _. destruct md; reflexivity.
Qed.

(** ** What a request does to the world *)

(** Every request is answered: no exception leaves the handler, and the
    status is 200, 400, 403 or 500. *)
Theorem handler_always_answers (L : Libs) (env : Env) (req : Request) (w : World) :
  exists resp w',
    handler L env req w = (Returns resp, w')
    /\ (code resp = 200 \/ code resp = 400 \/ code resp = 403 \/ code resp = 500).
Proof.
  destruct (handler_run L env req w) as (resp & w' & H & HR).
  exists resp, w'. split; [exact H|].
  destruct HR as [c msg [Hc|Hc] _| | |]; simpl; auto.
Qed.

(** A request makes no call, or one call of [fetchPage], or one call of
    [fetchPage] followed by one call of the chunker, for its own url,
    render flag and target. The chunker is called only for an answer 200,
    and an answer 400 or 403 comes without any call. *)
Theorem calls_of_a_request (L : Libs) (env : Env) (req : Request)
    (w w' : World) (resp : Response) :
  handler L env req w = (Returns resp, w') ->
  calls w' = calls w ++ new_calls w w'
  /\ (new_calls w w' = []
      \/ (exists u, q_url req = Some u
            /\ new_calls w w' = [CallFetchPage u (render_of req)]
            /\ code resp = 500)
      \/ (exists u md, q_url req = Some u
            /\ new_calls w w' =
               [CallFetchPage u (render_of req);
                CallChunkMarkdown md (chunk_opts_of (target_words_of req))]
            /\ code resp = 200))
  /\ (code resp = 400 \/ code resp = 403 -> new_calls w w' = []).
Proof.
  intros H. apply handler_inv in H. unfold new_calls.
  destruct H as [c msg Hc _|u e _ _|u msg [Hu _] _
                |u page a host [Hu _] _ _ _ _ _ r e]; cbn [calls code].
  - rewrite drop_all, app_nil_r. repeat split; auto.
  - rewrite drop_all, app_nil_r. repeat split; auto.
  - rewrite drop_app_length. split; [reflexivity|]. split.
    + right; left. exists u. split; [exact Hu|]. split; reflexivity.
    + intros [Hc|Hc]; discriminate.
  - rewrite drop_app_length. split; [reflexivity|]. split.
    + right; right. exists u, (res_md r). split; [exact Hu|]. split; reflexivity.
    + intros [Hc|Hc]; discriminate.
Qed.

Lemma calls_of_a_request_witness :
  calls SampleRun.warm_world
  = calls Sample.empty_world ++ new_calls Sample.empty_world SampleRun.warm_world.
Proof.
  exact (proj1 (calls_of_a_request SampleRun.L (Sample.env true "t1")
                  (Sample.request "false") Sample.empty_world SampleRun.warm_world
                  {| code := 200; body := BJson (SampleRun.result "t1") |}
                  (sample_first_scrape "t1"))).
Defined.

(** The cache is written all or nothing. An answer other than 200 leaves
    it as it was; an answer 200 changes at most the file of the request's
    own key; and a file that holds an entry is never changed or removed. *)
Theorem cache_written_all_or_nothing (L : Libs) (env : Env) (req : Request)
    (w w' : World) (resp : Response) :
  handler L env req w = (Returns resp, w') ->
  (code resp <> 200 -> cache w' = cache w)
  /\ (forall k, cache w' !! k <> cache w !! k ->
       exists u, q_url req = Some u
         /\ k = cache_key L u (render_of req) (target_words_of req))
  /\ (forall k e, cache w !! k = Some (FileEntry e) ->
       cache w' !! k = Some (FileEntry e)).
Proof.
  intros H. apply handler_inv in H.
  destruct H as [c msg Hc _|u e _ _|u msg _ _
                |u page a host [Hu _] Hmiss _ _ _ _ r e]; cbn [cache code];
    try (split; [reflexivity|]; split; [congruence | auto]).
  split; [congruence|].
  destruct (disk_writable env); [|split; [congruence|auto]].
  split.
  - intros k Hk. exists u. split; [exact Hu|].
    destruct (decide (cache_key L u (render_of req) (target_words_of req) = k))
      as [Heq|Hne]; [symmetry; exact Heq|].
    rewrite lookup_insert_ne in Hk by exact Hne. congruence.
  - intros k e0 Hk.
    destruct (decide (cache_key L u (render_of req) (target_words_of req) = k))
      as [Heq|Hne].
    + subst k. unfold lookup_entry in Hmiss. rewrite Hk in Hmiss. discriminate.
    + rewrite lookup_insert_ne by exact Hne. exact Hk.
Qed.

Lemma cache_written_all_or_nothing_witness :
  cache SampleRun.warm_world = cache SampleRun.warm_world.
Proof.
  refine (proj1 (cache_written_all_or_nothing SampleRun.L (Sample.env false "t2")
                   (Sample.request "false") SampleRun.warm_world
                   SampleRun.warm_world
                   {| code := 403; body := BError (lit "Blocked by robots.txt") |}
                   _) _).
  - reflexivity.
  - discriminate.
Defined.

(** What [fetchPage] throws is what the answer 500 reports; nothing is
    chunked and the cache is not touched. The same holds for what
    Readability throws, and a final url without hostname is reported as
    [Invalid URL]. *)
Theorem failures_are_reported (L : Libs) (env : Env) (req : Request)
    (u : jsstring) (w : World) :
  passes_gates L env req u ->
  lookup_entry L req u w = None ->
  (forall msg,
     fetchPage env u (render_of req) = Throws msg -> reports L env req u w msg)
  /\ (forall page msg,
        fetchPage env u (render_of req) = Returns page ->
        extractMain L (html page) (str_or (finalUrl page) u) = Throws msg ->
        reports L env req u w msg)
  /\ (forall page a,
        fetchPage env u (render_of req) = Returns page ->
        extractMain L (html page) (str_or (finalUrl page) u) = Returns (Some a) ->
        truthy (art_content a) = true ->
        url_hostname L (str_or (finalUrl page) u) = None ->
        reports L env req u w (lit "Invalid URL")).
Proof.
  intros Hadm Hmiss. unfold reports.
  rewrite (handler_passes_gates L env req u w Hadm).
  assert (cacheGet (cache_key L u (render_of req) (target_words_of req)) w
          = (Returns None, w)) as Hget.
  { unfold cacheGet, lookup_entry in *.
    destruct (cache w !! _) as [[e'|]|]; try discriminate; reflexivity. }
  unfold try_catch, scrape, mbind, M_bind. rewrite Hget.
  unfold record_call, lift_outcome, respond, mret, M_ret, extractMain.
  cbn [cache calls].
  split; [|split].
  - intros msg ->. reflexivity.
  - intros page msg -> Hext. unfold extractMain in Hext. rewrite Hext. reflexivity.
  - intros page a -> Hext Hc Hhost. unfold extractMain in Hext.
    rewrite Hext, Hc. unfold compose_and_store, mbind, M_bind, throw.
    rewrite Hhost. reflexivity.
Qed.

(** What the JSON result of a scrape holds: the url is not empty and its
    hostname is the domain, the time stamp is the time of the request, the
    fetch status is never 0, and the chunks are those of the composed
    Markdown for the target of the request. *)
Theorem scraped_result_shape (L : Libs) (env : Env) (req : Request)
    (w w' : World) (r : ScrapeResult) :
  handler L env req w = (Returns {| code := 200; body := BJson r |}, w') ->
  calls w' <> calls w ->
  truthy (url (res_meta r)) = true
  /\ url_hostname L (url (res_meta r)) = Some (domain (res_meta r))
  /\ crawled_at (res_meta r) = isoNow env
  /\ res_fetched_status r <> 0
  /\ res_chunks r = chunkMarkdown (res_md r) (chunk_opts_of (target_words_of req)).
Proof.
  intros H Hcalls. apply handler_inv in H.
  inversion H as [c msg _ _|u e _ _|u msg _ _
                 |u page a host Hadm _ _ _ _ Hhost r0 e0];
    subst; try congruence.
  unfold entry_body in *. destruct (raw_of req); [discriminate|].
  simplify_eq. unfold scraped, result_of, result_with, meta_of.
  cbn [res_meta res_md res_chunks res_fetched_status url domain crawled_at].
  destruct Hadm as (_ & Ht & _).
  repeat split; try assumption.
  - unfold str_or. destruct (truthy (finalUrl page)) eqn:E; assumption.
  - destruct (status page =? 0) eqn:E; [discriminate|].
    apply Z.eqb_neq in E. exact E.
Qed.

Lemma failures_are_reported_witness :
  reports SampleRun.L (failing_env "timeout") (Sample.request "false")
    SampleRun.u Sample.empty_world (lit "timeout").
Proof.
  refine (proj1 (failures_are_reported SampleRun.L (failing_env "timeout")
                   (Sample.request "false") SampleRun.u Sample.empty_world _ _)
            (lit "timeout") _).
  - repeat split; try reflexivity. exists (lit "example.com"). reflexivity.
  - reflexivity.
  - reflexivity.
Defined.

Lemma scraped_result_shape_witness :
  truthy (url (res_meta (SampleRun.result "t1"))) = true
  /\ url_hostname SampleRun.L (url (res_meta (SampleRun.result "t1")))
     = Some (domain (res_meta (SampleRun.result "t1")))
  /\ crawled_at (res_meta (SampleRun.result "t1")) = isoNow (Sample.env true "t1")
  /\ res_fetched_status (SampleRun.result "t1") <> 0
  /\ res_chunks (SampleRun.result "t1")
     = chunkMarkdown (res_md (SampleRun.result "t1"))
         (chunk_opts_of (target_words_of (Sample.request "false"))).
Proof.
  exact (scraped_result_shape SampleRun.L (Sample.env true "t1")
           (Sample.request "false") Sample.empty_world _ (SampleRun.result "t1")
           (sample_first_scrape "t1") (sample_first_scrape_calls "t1")).
Defined.

(** The cache stays coherent: when the Markdown of every stored entry is
    the [md] of its JSON result, this is so after the request as well, and
    an answer 200 is one of the two parts of such an entry, so that the
    raw answer is the [md] field of the JSON answer. *)
Theorem cache_stays_coherent (L : Libs) (env : Env) (req : Request)
    (w w' : World) (resp : Response) :
  cache_coherent w ->
  handler L env req w = (Returns resp, w') ->
  cache_coherent w'
  /\ (code resp = 200 ->
      exists e, body resp = entry_body (raw_of req) e
                /\ entry_md e = res_md (entry_json e)).
Proof.
  intros Hcoh H. apply handler_inv in H.
  destruct H as [c msg [Hc|Hc] _|u e _ Hhit|u msg _ _
                |u page a host _ _ _ _ _ _ r e]; cbn [cache code body].
  - split; [exact Hcoh|]. intros ->. discriminate.
  - split; [exact Hcoh|]. intros ->. discriminate.
  - split; [exact Hcoh|]. intros _. exists e. split; [reflexivity|].
    unfold lookup_entry in Hhit.
    destruct (cache w !! _) as [[e'|]|] eqn:E; try discriminate.
    injection Hhit as ->. exact (Hcoh _ _ E).
  - split; [exact Hcoh|]. discriminate.
  - split; [|intros _; exists e; split; reflexivity].
    destruct (disk_writable env); [|exact Hcoh].
    intros k e0 Hk. cbn [cache] in Hk.
    destruct (decide (cache_key L u (render_of req) (target_words_of req) = k))
      as [Heq|Hne].
    + subst k. rewrite lookup_insert_eq in Hk. injection Hk as <-. reflexivity.
    + rewrite lookup_insert_ne in Hk by exact Hne. exact (Hcoh _ _ Hk).
Qed.

Lemma cache_stays_coherent_witness : cache_coherent SampleRun.warm_world.
Proof.
  refine (proj1 (cache_stays_coherent SampleRun.L (Sample.env true "t1")
                   (Sample.request "false") Sample.empty_world
                   SampleRun.warm_world
                   {| code := 200; body := BJson (SampleRun.result "t1") |}
                   _ (sample_first_scrape "t1"))).
  intros k e H. cbn [cache Sample.empty_world] in H.
  rewrite lookup_empty in H. discriminate.
Defined.

Ltac refused_case H Hc :=
  unfold respond, mret, M_ret in H; injection H as <- _; simpl in Hc; discriminate.

(** A request is answered 403 exactly when its url parses and robots.txt
    was fetched and allows neither the agent [site2md-api] nor [*]: a
    robots.txt that cannot be fetched refuses nothing. *)
Theorem robots_refusal (L : Libs) (env : Env) (req : Request)
    (w w' : World) (resp : Response) :
  handler L env req w = (Returns resp, w') ->
  code resp = 403 <->
  exists u rp,
    q_url req = Some u /\ truthy u = true /\ is_Some (url_hostname L u)
    /\ fetchRobotsTxt env u = Some rp
    /\ rp u (lit "site2md-api") = false /\ rp u (lit "*") = false.
Proof.
  intros H. split.
  - intros Hc. pose proof (handler_inv L env req w w' resp H) as HR.
    unfold handler in H.
    destruct (q_url req) as [u|] eqn:Hu; [|refused_case H Hc].
    destruct (truthy u) eqn:Ht; simpl in H; [|refused_case H Hc].
    destruct (url_hostname L u) as [h|] eqn:Hh; [|refused_case H Hc].
    destruct (politeToCrawl env u) eqn:Hp; simpl in H.
    + exfalso.
      assert (passes_gates L env req u) as Hadm by (repeat split; eauto).
      destruct HR as [c msg _ Hno| | |]; try discriminate.
      exact (Hno u Hadm).
    + unfold politeToCrawl in Hp.
      destruct (fetchRobotsTxt env u) as [rp|] eqn:Hr; [|discriminate].
      apply orb_false_iff in Hp as [Hp1 Hp2].
      exists u, rp. repeat split; eauto.
  - intros (u & rp & Hu & Ht & [h Hh] & Hr & H1 & H2).
    unfold handler in H. rewrite Hu, Ht in H. simpl in H. rewrite Hh in H.
    unfold politeToCrawl in H. rewrite Hr, H1, H2 in H. simpl in H.
    unfold respond, mret, M_ret in H. injection H as <- _. reflexivity.
Qed.

Lemma robots_refusal_witness :
  exists u rp,
    q_url (Sample.request "false") = Some u /\ truthy u = true
    /\ is_Some (url_hostname SampleRun.L u)
    /\ fetchRobotsTxt (Sample.env false "t2") u = Some rp
    /\ rp u (lit "site2md-api") = false /\ rp u (lit "*") = false.
Proof.
  apply (robots_refusal SampleRun.L (Sample.env false "t2")
           (Sample.request "false") Sample.empty_world Sample.empty_world
           {| code := 403; body := BError (lit "Blocked by robots.txt") |}).
  - reflexivity.
  - reflexivity.
Defined.

(** ** The file cache *)

(** What [cacheSet] has written, [cacheGet] reads back, and the other keys
    read as before; when the write fails nothing changes and [false] is
    returned; a missing or unreadable file reads as [null]. *)
Theorem cache_set_then_get (env : Env) (key : jsstring) (obj : CacheEntry)
    (w : World) :
  (disk_writable env = true ->
   exists w',
     cacheSet env key obj w = (Returns true, w')
     /\ cacheGet key w' = (Returns (Some obj), w')
     /\ (forall k, k <> key -> (cacheGet k w').1 = (cacheGet k w).1)
     /\ calls w' = calls w)
  /\ (disk_writable env = false -> cacheSet env key obj w = (Returns false, w))
  /\ (cache w !! key = None \/ cache w !! key = Some FileUnreadable ->
      cacheGet key w = (Returns None, w)).
Proof.
  unfold cacheSet, cacheGet. split; [|split].
  - intros ->. eexists. split; [reflexivity|]. cbn [cache calls].
    rewrite lookup_insert_eq. split; [reflexivity|]. split; [|reflexivity].
    intros k Hk. cbn [fst]. rewrite lookup_insert_ne by congruence. reflexivity.
  - intros ->. reflexivity.
  - intros [->| ->]; reflexivity.
Qed.

(** ** Numbers in the query and in the key *)

Lemma uint_chars_digits (d : Decimal.uint) :
  Forall (fun c => is_digit c = true) (uint_chars d).
Proof. induction d; simpl; constructor; auto. Qed.

Lemma uint_chars_inj (d d' : Decimal.uint) :
  uint_chars d = uint_chars d' -> d = d'.
Proof.
  revert d'. induction d; intros d'; destruct d'; simpl; intros H;
    try discriminate; try reflexivity;
    injection H as H; f_equal; auto.
Qed.

Lemma digits_value_acc (d : Decimal.uint) : forall acc : positive,
  digits_value (Zpos acc) (uint_chars d) = Zpos (Pos.of_uint_acc d acc).
Proof.
  induction d; intros acc; simpl; try reflexivity;
    match goal with
    | |- digits_value ?z _ = Zpos (Pos.of_uint_acc _ ?q) =>
        replace z with (Zpos q) by lia; apply IHd
    end.
Qed.

Lemma digits_value_uint (d : Decimal.uint) :
  digits_value 0 (uint_chars d) = Z.of_N (Pos.of_uint d).
Proof.
  induction d; simpl; try reflexivity; try exact IHd;
    match goal with
    | |- digits_value ?z _ = _ => apply (digits_value_acc d)
    end.
Qed.

Lemma pos_to_uint_digits (p : positive) :
  exists c t, uint_chars (Pos.to_uint p) = c :: t /\ is_digit c = true.
Proof.
  pose proof (DecimalPos.Unsigned.of_to p) as H.
  pose proof (uint_chars_digits (Pos.to_uint p)) as Hd.
  destruct (Pos.to_uint p) eqn:E; try discriminate;
    simpl in *; apply Forall_cons in Hd as [Hc _]; eauto.
Qed.

Lemma digit_not_space (c : jschar) : is_digit c = true -> is_space c = false.
Proof.
  unfold is_digit, is_space. intros H. apply andb_true_iff in H as [H1 H2].
  apply N.leb_le in H1. apply N.leb_le in H2.
  repeat match goal with
         | |- context [(?a <=? c)%N] => destruct (N.leb_spec a c); try lia
         | |- context [(c <=? ?a)%N] => destruct (N.leb_spec c a); try lia
         | |- context [(c =? ?a)%N] => destruct (N.eqb_spec c a); try lia
         end; reflexivity.
Qed.

Lemma digit_not_sign (c : jschar) :
  is_digit c = true -> (c =? 45)%N = false /\ (c =? 43)%N = false.
Proof.
  unfold is_digit. intros H. apply andb_true_iff in H as [H1 H2].
  apply N.leb_le in H1. split; apply N.eqb_neq; lia.
Qed.

Lemma parseInt10_digits (c : jschar) (t : jsstring) :
  is_digit c = true ->
  parseInt10 (c :: t) = Some (Double.of_Z (digits_value 0 (c :: t))).
Proof.
  intros Hc. unfold parseInt10. cbn [drop_spaces].
  rewrite (digit_not_space c Hc).
  destruct (digit_not_sign c Hc) as [-> ->]. rewrite Hc.
  f_equal. f_equal. lia.
Qed.

(** Below [2^53] every integer is a double. *)
Lemma of_Z_safe (n : Z) : Z.abs n < 2 ^ 53 -> Double.of_Z n = n.
Proof.
  intros H. unfold Double.of_Z. rewrite (round53_small n H).
  assert (2 ^ 53 < Double.infinity) as Hinf
    by (unfold Double.infinity; apply Z.pow_lt_mono_r; lia).
  destruct (Z.leb_spec Double.infinity (Z.abs n)); [lia | reflexivity].
Qed.

(** The decimal text of an integer below [2^53] parses back to it. *)
Lemma parseInt10_integer_text (n : Z) :
  Z.abs n < 2 ^ 53 -> parseInt10 (integer_text n) = Some n.
Proof.
  intros Hn.
  destruct n as [|p|p]; [reflexivity| |]; unfold integer_text; simpl Z.to_int.
  - destruct (pos_to_uint_digits p) as (c & t & E & Hc).
    rewrite E, (parseInt10_digits c t Hc), <- E, digits_value_uint.
    rewrite DecimalPos.Unsigned.of_to. f_equal. apply of_Z_safe, Hn.
  - destruct (pos_to_uint_digits p) as (c & t & E & Hc).
    unfold parseInt10. cbn [drop_spaces]. change (is_space 45) with false.
    cbv iota. change (45 =? 45)%N with true. cbv iota.
    rewrite E, Hc, <- E, digits_value_uint, DecimalPos.Unsigned.of_to.
    f_equal. apply (of_Z_safe (Z.neg p)), Hn.
Qed.

Lemma integer_text_truthy (n : Z) : truthy (integer_text n) = true.
Proof.
  destruct n as [|p|p]; [reflexivity| |]; unfold integer_text; simpl Z.to_int.
  - destruct (pos_to_uint_digits p) as (c & t & -> & _). reflexivity.
  - reflexivity.
Qed.

(** Below [2^53] the text of a number is the decimal text of the
    integer. *)
Lemma number_to_string_safe (n : Z) :
  Z.abs n < 2 ^ 53 -> number_to_string n = integer_text n.
Proof.
  intros Hn.
  assert (2 ^ 53 < Double.infinity) as Hinf
    by (unfold Double.infinity; apply Z.pow_lt_mono_r; lia).
  unfold number_to_string.
  destruct (Z.eqb_spec n 0) as [->|H0]; [reflexivity|].
  destruct (Z.eqb_spec n Double.infinity); [lia|].
  destruct (Z.eqb_spec n (- Double.infinity)); [lia|].
  unfold positive_text.
  destruct (Z.ltb_spec n 0).
  - destruct (Z.leb_spec (- n) (2 ^ 53)); [|lia].
    destruct n as [|p|p]; try lia. reflexivity.
  - destruct (Z.leb_spec n (2 ^ 53)); [reflexivity | lia].
Qed.

(** The target is never 0. It is 1000 when the parameter is absent, empty
    or not a number. When the parameter starts with a digit the target is
    the double nearest to the integer that its digits write, and so the
    integer itself when the parameter is the text of an integer other
    than 0 and below [2^53] in magnitude, negative ones included. *)
Theorem target_words_of_the_query (req : Request) :
  target_words_of req <> 0
  /\ (q_target_words req = None \/ q_target_words req = Some [] ->
      target_words_of req = 1000)
  /\ (forall v, q_target_words req = Some v -> parseInt10 v = None ->
      target_words_of req = 1000)
  /\ (forall c t, is_digit c = true -> q_target_words req = Some (c :: t) ->
      Double.of_Z (digits_value 0 (c :: t)) <> 0 ->
      target_words_of req = Double.of_Z (digits_value 0 (c :: t)))
  /\ (forall n, n <> 0 -> Z.abs n < 2 ^ 53 ->
      q_target_words req = Some (number_to_string n) ->
      target_words_of req = n).
Proof.
  unfold target_words_of. split; [|split; [|split; [|split]]].
  - destruct (parseInt10 _) as [n|]; [|discriminate].
    destruct (Z.eqb_spec n 0); [discriminate | assumption].
  - intros [-> | ->]; reflexivity.
  - intros v -> Hv. unfold query_or, str_or.
    destruct (truthy v); [rewrite Hv|]; reflexivity.
  - intros c t Hc -> Hv. unfold query_or, str_or. cbn [truthy].
    rewrite (parseInt10_digits c t Hc).
    destruct (Z.eqb_spec (Double.of_Z (digits_value 0 (c :: t))) 0);
      [contradiction | reflexivity].
  - intros n Hn Hsafe ->. unfold query_or, str_or.
    rewrite (number_to_string_safe n Hsafe).
    rewrite integer_text_truthy, (parseInt10_integer_text n Hsafe).
    destruct (Z.eqb_spec n 0); [contradiction | reflexivity].
Qed.

(** ** The text of the cache key *)

Lemma split_at_last (c : jschar) (x x' y y' : jsstring) :
  x ++ c :: y = x' ++ c :: y' -> c ∉ y -> c ∉ y' -> x = x' /\ y = y'.
Proof.
  revert x'. induction x as [|a x IH]; intros [|a' x'] H Hy Hy'; simpl in H.
  - injection H as ->. split; reflexivity.
  - injection H as <- ->. exfalso. apply Hy.
    apply elem_of_app. right. left.
  - injection H as -> <-. exfalso. apply Hy'.
    apply elem_of_app. right. left.
  - injection H as <- H. destruct (IH x' H Hy Hy') as [-> ->].
    split; reflexivity.
Qed.

Lemma integer_text_no_bar (n : Z) :
  Forall (fun c => c <> Char.bar) (integer_text n).
Proof.
  assert (forall d, Forall (fun c => c <> Char.bar) (uint_chars d)) as Hd.
  { intros d. eapply Forall_impl; [apply uint_chars_digits|].
    intros c Hc ->. discriminate. }
  unfold integer_text. destruct (Z.to_int n) as [d|d]; [apply Hd|].
  constructor; [discriminate | apply Hd].
Qed.

Lemma positive_text_no_bar (x : Z) :
  Forall (fun c => c <> Char.bar) (positive_text x).
Proof.
  unfold positive_text.
  destruct (x <=? 2 ^ 53); [apply integer_text_no_bar|].
  destruct (shortest_decimal 400 x 1 0 (x, O)) as [v j].
  pose proof (integer_text_no_bar v) as Hall.
  destruct (_ <=? 21)%nat; [exact Hall|].
  pose proof (Forall_take _ (length (integer_text v) - j)%nat _ Hall) as Hs.
  assert (Forall (fun c => c <> Char.bar)
            (lit "e+"
               ++ integer_text (Z.of_nat (length (integer_text v) - 1)))) as He.
  { apply Forall_app. split; [|apply integer_text_no_bar].
    repeat constructor; discriminate. }
  destruct (take _ _) as [|d [|d' ds]]; [exact Hall| |].
  - apply Forall_cons in Hs as [Hd _]. constructor; assumption.
  - apply Forall_cons in Hs as [Hd Hds].
    constructor; [exact Hd|]. constructor; [discriminate|].
    apply Forall_app. split; assumption.
Qed.

Lemma number_to_string_no_bar (n : Z) : Char.bar ∉ number_to_string n.
Proof.
  assert (Forall (fun c => c <> Char.bar) (number_to_string n)) as H.
  { unfold number_to_string.
    destruct (n =? 0); [repeat constructor; discriminate|].
    destruct (n =? Double.infinity); [repeat constructor; discriminate|].
    destruct (n =? - Double.infinity); [repeat constructor; discriminate|].
    destruct (n <? 0); [|apply positive_text_no_bar].
    constructor; [discriminate | apply positive_text_no_bar]. }
  intros Hin. rewrite Forall_forall in H. exact (H _ Hin eq_refl).
Qed.

Lemma number_to_string_inj (n n' : Z) :
  Z.abs n < 2 ^ 53 -> Z.abs n' < 2 ^ 53 ->
  number_to_string n = number_to_string n' -> n = n'.
Proof.
  intros Hn Hn' H. rewrite !number_to_string_safe in H by assumption.
  apply (f_equal parseInt10) in H.
  rewrite !parseInt10_integer_text in H by assumption.
  injection H as ->. reflexivity.
Qed.

Lemma cache_key_text_split (u : jsstring) (render : bool) (tw : Z) :
  cache_key_text u render tw =
  (u ++ Char.bar :: (if render then lit "r" else lit "n"))
    ++ Char.bar :: number_to_string tw.
Proof. unfold cache_key_text. rewrite <- app_assoc. reflexivity. Qed.

(** The text that is hashed into the cache key determines the url, the
    render flag and the text of the target, although the url is free to
    hold bars; two targets below [2^53] in magnitude that have the same
    text are the same. *)
Theorem cache_key_text_determines_request (L : Libs) (u u' : jsstring)
    (render render' : bool) (tw tw' : Z) :
  cache_key L u render tw = sha256hex L (cache_key_text u render tw)
  /\ (cache_key_text u render tw = cache_key_text u' render' tw' ->
      u = u' /\ render = render'
      /\ number_to_string tw = number_to_string tw'
      /\ (Z.abs tw < 2 ^ 53 -> Z.abs tw' < 2 ^ 53 -> tw = tw')).
Proof.
  split; [reflexivity|]. intros H.
  rewrite !cache_key_text_split in H.
  apply split_at_last in H as [H1 H2];
    [|apply number_to_string_no_bar | apply number_to_string_no_bar].
  apply split_at_last in H1 as [H1 H3].
  - split; [exact H1|]. split; [|split; [exact H2|]].
    + destruct render, render'; try reflexivity; discriminate.
    + intros Hs Hs'. exact (number_to_string_inj tw tw' Hs Hs' H2).
  - destruct render; intros Hin; apply list_elem_of_singleton in Hin;
      discriminate.
  - destruct render'; intros Hin; apply list_elem_of_singleton in Hin;
      discriminate.
Qed.

(** ** The shape of the frontmatter block *)

Lemma count_nl_app (a b : jsstring) : count_nl (a ++ b) = (count_nl a + count_nl b)%nat.
Proof. unfold count_nl. rewrite List.filter_app, length_app. reflexivity. Qed.

Lemma count_nl_escape (s : jsstring) : count_nl (escape s) = O.
Proof.
  rewrite escape_flat_map. induction s as [|c t IH]; [reflexivity|].
  cbn [flat_map]. rewrite count_nl_app, IH. unfold escape_char.
  destruct (N.eqb_spec c Char.dquote) as [->|Hc]; [reflexivity|].
  destruct (is_nl c) eqn:E; [reflexivity|].
  unfold count_nl. simpl. rewrite E. reflexivity.
Qed.

Lemma frontmatter_block_lines (meta : Meta) :
  frontmatter_block meta = frontmatter_lines meta ++ [Char.nl].
Proof.
  unfold frontmatter_block, frontmatter_lines, addFrontmatter.
  cbn [js_join]. rewrite !str_or_nil, !app_nil_r.
  repeat rewrite <- app_assoc. reflexivity.
Qed.

(** Title and excerpt never add a line to the block: the composed text has
    eight newlines from the block, plus those of the url, the domain, the
    time stamp and the hash, which are written as they are, plus those of
    the body. *)
Theorem frontmatter_newlines (md : jsstring) (meta : Meta) :
  count_nl (addFrontmatter md meta) =
  (8 + count_nl (url meta) + count_nl (domain meta)
   + count_nl (crawled_at meta) + count_nl (content_hash meta)
   + count_nl md)%nat.
Proof.
  rewrite addFrontmatter_block, frontmatter_block_lines.
  unfold frontmatter_lines, fm_line.
  repeat rewrite count_nl_app. rewrite !count_nl_escape.
  unfold lit, count_nl. simpl. lia.
Qed.

Lemma length_escape (s : jsstring) :
  length (escape s) = (length s + count_quotes s)%nat.
Proof.
  rewrite escape_flat_map. unfold count_quotes.
  induction s as [|c t IH]; [reflexivity|].
  cbn [flat_map List.filter]. rewrite length_app, IH. unfold escape_char.
  destruct (c =? Char.dquote)%N; [simpl; lia|].
  destruct (is_nl c); simpl; lia.
Qed.

(** [escape] adds one code unit for every double quote and nothing else,
    and it leaves a text without double quote and newline as it is. *)
Theorem escape_of_clean_text (s : jsstring) :
  length (escape s) = (length s + count_quotes s)%nat
  /\ (Char.dquote ∉ s -> Char.nl ∉ s -> escape s = s).
Proof.
  split; [apply length_escape|].
  rewrite escape_flat_map. induction s as [|c t IH]; [reflexivity|].
  intros Hq Hn. cbn [flat_map]. unfold escape_char at 1.
  destruct (N.eqb_spec c Char.dquote) as [->|Hc];
    [exfalso; apply Hq; left|].
  destruct (is_nl c) eqn:E.
  - exfalso. apply Hn. unfold is_nl in E. apply N.eqb_eq in E. subst c. left.
  - simpl. f_equal. apply IH.
    + intros H. apply Hq. right. exact H.
    + intros H. apply Hn. right. exact H.
Qed.

(** ** The block in the first chunk *)

Lemma sep_free_cons_nonl (c : jschar) (t : jsstring) :
  is_nl c = false -> sep_free (c :: t) = sep_free t.
Proof. intros H. destruct t as [|d t]; [reflexivity|]. cbn [sep_free]. rewrite H. reflexivity. Qed.

Lemma sep_free_app_nonl (a t : jsstring) :
  no_nl a = true -> sep_free (a ++ t) = sep_free t.
Proof.
  induction a as [|c a IH]; [reflexivity|]. intros H.
  unfold no_nl in H. cbn [forallb] in H.
  apply andb_true_iff in H as [Hc Ha]. apply negb_true_iff in Hc.
  change ((c :: a) ++ t) with (c :: (a ++ t)).
  rewrite (sep_free_cons_nonl c _ Hc). exact (IH Ha).
Qed.

Lemma sep_free_nl_cons (c d : jschar) (t : jsstring) :
  is_nl d = false -> (d =? Char.hash)%N = false ->
  sep_free (c :: d :: t) = sep_free t.
Proof.
  intros Hd Hh. rewrite <- (sep_free_cons_nonl d t Hd).
  cbn [sep_free]. rewrite Hd, Hh, andb_false_r. reflexivity.
Qed.

Ltac eval_lits :=
  repeat match goal with
         | |- context [lit ?s] =>
             let v := eval vm_compute in (lit s) in change (lit s) with v
         end.

Lemma no_nl_escape (s : jsstring) : no_nl (escape s) = true.
Proof.
  rewrite escape_flat_map. unfold no_nl.
  induction s as [|c t IH]; [reflexivity|].
  cbn [flat_map]. rewrite forallb_app, IH, andb_true_r. unfold escape_char.
  destruct (N.eqb_spec c Char.dquote) as [->|Hc]; [reflexivity|].
  destruct (is_nl c) eqn:E; [reflexivity|]. simpl. rewrite E. reflexivity.
Qed.

Lemma frontmatter_lines_sep_free (meta : Meta) :
  no_nl (url meta) = true -> no_nl (domain meta) = true ->
  no_nl (crawled_at meta) = true -> no_nl (content_hash meta) = true ->
  sep_free (frontmatter_lines meta ++ [Char.nl]) = true.
Proof.
  intros Hu Hd Hc Hh.
  pose proof (no_nl_escape (title meta)) as Ht.
  pose proof (no_nl_escape (excerpt meta)) as He.
  unfold frontmatter_lines, fm_line. eval_lits.
  repeat rewrite <- app_assoc. cbn [app].
  repeat first
    [ rewrite sep_free_cons_nonl by reflexivity
    | rewrite sep_free_nl_cons by reflexivity
    | rewrite sep_free_app_nonl by assumption ].
  reflexivity.
Qed.

Lemma segment_match_pair (c d : jschar) (t : jsstring) :
  negb (is_nl c && ((d =? Char.hash)%N || is_nl d)) = true ->
  segment_match (c :: d :: t) = O.
Proof.
  unfold segment_match. destruct (is_nl c); [|reflexivity]. simpl.
  destruct (d =? Char.hash)%N; [discriminate|].
  destruct (is_nl d); [discriminate | reflexivity].
Qed.

(** The scan goes through a text in which the pattern does not match. *)
Lemma split_go_through (b : jsstring) : forall (acc : jsstring) (c : jschar)
    (rest : jsstring),
  sep_free (b ++ [c]) = true ->
  js_split_go segment_match O acc (b ++ c :: rest)
  = js_split_go segment_match O (acc ++ b) (c :: rest).
Proof.
  induction b as [|a b IH]; intros acc c rest H.
  - rewrite app_nil_r. reflexivity.
  - assert (segment_match (a :: b ++ c :: rest) = O) as Hm.
    { destruct b as [|a' b]; simpl app in *; cbn [sep_free] in H;
        apply andb_true_iff in H as [H _]; exact (segment_match_pair _ _ _ H). }
    simpl app. rewrite split_go_step by exact Hm.
    rewrite IH.
    + rewrite <- app_assoc. reflexivity.
    + destruct b as [|a' b]; [reflexivity|].
      simpl app in H. cbn [sep_free] in H.
      apply andb_true_iff in H as [_ H]. exact H.
Qed.

Lemma frontmatter_whole_first_segment (md : jsstring) (meta : Meta) :
  sep_free (frontmatter_lines meta ++ [Char.nl]) = true ->
  exists x rest,
    segments (addFrontmatter md meta) = (frontmatter_lines meta ++ x) :: rest.
Proof.
  intros H. rewrite addFrontmatter_block, frontmatter_block_lines.
  unfold segments, js_split. rewrite <- app_assoc.
  change ([Char.nl] ++ md) with (Char.nl :: md).
  rewrite split_go_through by exact H.
  destruct (split_go_head segment_match (Char.nl :: md)
              ([] ++ frontmatter_lines meta)) as (x & rest & ->).
  exists x, rest. reflexivity.
Qed.

Lemma trim_blank_prefix (l s : jsstring) :
  nonblank l = false -> trim (l ++ s) = trim s.
Proof.
  intros H. unfold trim.
  assert (drop_spaces (l ++ s) = drop_spaces s) as ->; [|reflexivity].
  induction l as [|c l IH]; [reflexivity|]. simpl in *.
  destruct (is_space c); [exact (IH H) | discriminate].
Qed.

Lemma trim_keeps_head (x v : jsstring) :
  (exists c t, x = c :: t /\ is_space c = false) ->
  (exists t d, x = t ++ [d] /\ is_space d = false) ->
  exists v', trim (x ++ v) = x ++ v'.
Proof.
  intros (c & t & Hx & Hc) (t' & d & Hx' & Hd). unfold trim.
  assert (drop_spaces (x ++ v) = x ++ v) as ->
    by (rewrite Hx; simpl; rewrite Hc; reflexivity).
  rewrite rev_app_distr, Hx', rev_app_distr. cbn [rev app].
  destruct (drop_spaces_keeps (rev v) d (rev t') Hd) as (v' & ->).
  exists (rev v'). rewrite rev_app_distr. cbn [rev].
  rewrite rev_involutive. reflexivity.
Qed.

Lemma first_inv_pushCur (pre : jsstring) (st : ChunkState) :
  nonblank pre = true -> first_inv pre st ->
  exists rc cs rest,
    chunks (pushCur st) = rc :: cs
    /\ text rc = trim (para_break ++ pre ++ rest).
Proof.
  intros Hpre [[Hcs (rest & Hcur)]|(rc & cs & rest & Hcs & Htext)].
  - rewrite pushCur_chunks_nonblank, Hcs
      by (rewrite Hcur, !nonblank_app, Hpre, orb_true_r; reflexivity).
    eexists _, [], rest. split; [reflexivity|]. cbn [text]. rewrite Hcur. reflexivity.
  - unfold pushCur. cbn [chunks]. rewrite Hcs.
    destruct (truthy _); eexists rc, _, rest; (split; [reflexivity | exact Htext]).
Qed.

Lemma first_inv_step (opts : ChunkOpts) (pre : jsstring) (st : ChunkState)
    (p : jsstring) :
  nonblank pre = true -> first_inv pre st -> first_inv pre (chunk_step opts st p).
Proof.
  intros Hpre Hst. destruct (closes opts st p) eqn:E.
  - rewrite chunk_step_close by exact E. right. cbn [chunks].
    exact (first_inv_pushCur pre st Hpre Hst).
  - rewrite chunk_step_append by exact E.
    destruct Hst as [[Hcs (rest & Hcur)]|(rc & cs & rest & Hcs & Htext)].
    + left. cbn [chunks cur]. split; [exact Hcs|].
      exists (rest ++ para_break ++ p). rewrite Hcur.
      repeat rewrite <- app_assoc. reflexivity.
    + right. exists rc, cs, rest. split; assumption.
Qed.

Lemma first_inv_loop (opts : ChunkOpts) (pre : jsstring) (todo : list jsstring) :
  nonblank pre = true ->
  forall st, first_inv pre st ->
    first_inv pre (fold_left (chunk_step opts) todo st).
Proof.
  intros Hpre. induction todo as [|p ps IH]; intros st Hst; simpl; [exact Hst|].
  apply IH, first_inv_step; assumption.
Qed.

Lemma frontmatter_lines_ends (meta : Meta) :
  (exists c t, frontmatter_lines meta = c :: t /\ is_space c = false)
  /\ (exists t d, frontmatter_lines meta = t ++ [d] /\ is_space d = false).
Proof.
  split.
  - unfold frontmatter_lines. eval_lits. cbn [app]. eexists _, _.
    split; reflexivity.
  - exists (removelast (frontmatter_lines meta)), 45%N.
    split; [|reflexivity].
    unfold frontmatter_lines. eval_lits.
    repeat rewrite app_assoc.
    match goal with
    | |- ?a ++ [?x; ?y; ?z] = _ =>
        change (a ++ [x; y; z]) with (a ++ ([x; y] ++ [z]))
    end.
    rewrite app_assoc, removelast_last. reflexivity.
Qed.

(** When the url, the domain, the time stamp and the hash hold no newline,
    the block is never cut: the first chunk has index 0 and its text
    starts with all the lines of the block. *)
Theorem frontmatter_in_first_chunk (md : jsstring) (meta : Meta)
    (opts : ChunkOpts) :
  no_nl (url meta) = true -> no_nl (domain meta) = true ->
  no_nl (crawled_at meta) = true -> no_nl (content_hash meta) = true ->
  exists c0 others tail,
    chunkMarkdown (addFrontmatter md meta) opts = c0 :: others
    /\ chunk_index c0 = O
    /\ chunk_text c0 = frontmatter_lines meta ++ tail.
Proof.
  intros Hu Hd Hc Hh.
  pose proof (frontmatter_lines_sep_free meta Hu Hd Hc Hh) as Hsep.
  destruct (frontmatter_whole_first_segment md meta Hsep) as (x & rest & Hseg).
  destruct (frontmatter_lines_ends meta) as [Hhead Hlast].
  assert (nonblank (frontmatter_lines meta) = true) as Hnb.
  { destruct Hhead as (c & t & -> & Hc0). simpl. rewrite Hc0. reflexivity. }
  unfold chunkMarkdown, chunk_loop. rewrite Hseg. cbn [fold_left].
  assert (first_inv (frontmatter_lines meta)
            (chunk_step opts chunk_init (frontmatter_lines meta ++ x))) as H0.
  { rewrite chunk_step_append by (apply closes_false; right; simpl; lia).
    left. cbn [chunks cur chunk_init]. split; [reflexivity|].
    exists x. reflexivity. }
  pose proof (first_inv_loop opts _ rest Hnb _ H0) as Hinv.
  destruct (first_inv_pushCur _ _ Hnb Hinv) as (rc & cs & tl & -> & Htext).
  destruct (trim_keeps_head (frontmatter_lines meta) tl Hhead Hlast) as (v' & Hv).
  eexists _, _, v'. unfold number_chunks. rewrite imap_cons.
  split; [reflexivity|]. split; [reflexivity|]. cbn [chunk_text].
  rewrite Htext, trim_blank_prefix by reflexivity. exact Hv.
Qed.

Lemma frontmatter_in_first_chunk_witness :
  exists c0 others tail,
    chunkMarkdown (addFrontmatter (lit "x") quoted_meta) default_opts = c0 :: others
    /\ chunk_index c0 = O
    /\ chunk_text c0 = frontmatter_lines quoted_meta ++ tail.
Proof.
  apply (frontmatter_in_first_chunk (lit "x") quoted_meta default_opts);
    reflexivity.
Defined.

(** ** The single browser and the page fetch *)

Section BrowserFacts.
Import Browser.

Lemma launches_app (a b : list Call) :
  launches (a ++ b) = (launches a + launches b)%nat.
Proof. unfold launches. rewrite List.filter_app, length_app. reflexivity. Qed.

Ltac run_fetch :=
  unfold fetchPage, getBrowser, catching, swallow, rethrow, call,
    mbind, B_bind, mret, B_ret;
  cbn [negb snd fst made browserPromise];
  repeat (match goal with
          | |- context [match ?x with _ => _ end] =>
              lazymatch x with
              | context [match _ with _ => _ end] => fail
              | _ => destruct x eqn:?
              end;
              cbn [negb snd fst made browserPromise]
          end).

(** What one page fetch adds to the calls and does to [browserPromise]. *)
Lemma fetchPage_effect (net : Net) (u : jsstring) (r : bool) (st : State) :
  exists evs,
    made (snd (fetchPage net u r st)) = made st ++ evs
    /\ browserPromise (snd (fetchPage net u r st))
       = (if r
          then Some (match browserPromise st with
                     | Some p => p
                     | None => net_launch net (made st)
                     end)
          else browserPromise st)
    /\ launches evs
       = (if r then match browserPromise st with Some _ => O | None => 1%nat end
          else O).
Proof.
  destruct r; run_fetch; repeat rewrite <- app_assoc; cbn [app];
    (eexists; split; [first [reflexivity | symmetry; apply app_nil_r]|]);
    (split; [first [reflexivity | congruence] | reflexivity]).
Qed.

(** A page fetch launches the browser only when none was launched before,
    and never replaces the promise it finds. *)
Lemma fetchPage_launched_once (net : Net) (u : jsstring) (r : bool) (st : State) :
  launched_once st ->
  launched_once (snd (fetchPage net u r st))
  /\ (r = false -> browserPromise (snd (fetchPage net u r st)) = browserPromise st)
  /\ (forall p, browserPromise st = Some p ->
        browserPromise (snd (fetchPage net u r st)) = Some p
        /\ launches (made (snd (fetchPage net u r st))) = launches (made st)).
Proof.
  unfold launched_once. intros H.
  destruct (fetchPage_effect net u r st) as (evs & -> & -> & Hl).
  rewrite launches_app, Hl.
  destruct r, (browserPromise st) as [p|]; rewrite H.
  all: split; [reflexivity|]; split; [first [discriminate | reflexivity]|].
  all: intros p0 [= <-]; split; reflexivity.
Qed.

Lemma fetch_all_launched_once (net : Net) (reqs : list (jsstring * bool)) :
  forall st, launched_once st ->
    launched_once (fetch_all net reqs st)
    /\ (forallb (fun q => negb (snd q)) reqs = true ->
          browserPromise (fetch_all net reqs st) = browserPromise st)
    /\ (forall p, browserPromise st = Some p ->
          browserPromise (fetch_all net reqs st) = Some p
          /\ launches (made (fetch_all net reqs st)) = launches (made st)).
Proof.
  induction reqs as [|[u r] rest IH]; intros st H; cbn [fetch_all].
  - split; [exact H|]. split; [reflexivity|]. intros p Hp. split; [exact Hp | reflexivity].
  - destruct (fetchPage_launched_once net u r st H) as (H1 & H2 & H3).
    destruct (IH _ H1) as (I1 & I2 & I3).
    split; [exact I1|]. split.
    + cbn [forallb snd]. intros [Hr Hrest]%andb_true_iff.
      rewrite I2 by exact Hrest. apply H2. destruct r; [discriminate | reflexivity].
    + intros p Hp. destruct (H3 p Hp) as [E1 E2].
      destruct (I3 p E1) as [E3 E4]. split; [exact E3 | congruence].
Qed.

(** Over page fetches made one after another chromium is launched at most
    once; in a process that awaited [getBrowser] at its start it is
    launched exactly once and the promise of that launch is the one every
    fetch uses, however the launch ended; fetches without rendering alone
    launch nothing. *)
Theorem single_browser_instance (net : Net) (reqs : list (jsstring * bool)) :
  (launches (made (fetch_all net reqs fresh)) <= 1)%nat
  /\ launches (made (fetch_all net reqs (started net))) = 1%nat
  /\ browserPromise (fetch_all net reqs (started net))
     = Some (net_launch net [])
  /\ (forallb (fun q => negb (snd q)) reqs = true ->
        launches (made (fetch_all net reqs fresh)) = O).
Proof.
  assert (launched_once fresh) as Hf by reflexivity.
  assert (launched_once (started net)) as Hs by reflexivity.
  destruct (fetch_all_launched_once net reqs fresh Hf) as (F1 & F2 & _).
  destruct (fetch_all_launched_once net reqs (started net) Hs) as (_ & _ & S3).
  destruct (S3 _ eq_refl) as [S4 S5].
  split; [|split; [|split]].
  - unfold launched_once in F1.
    destruct (browserPromise (fetch_all net reqs fresh)); lia.
  - rewrite S5. reflexivity.
  - exact S4.
  - intros Hall. unfold launched_once in F1. rewrite (F2 Hall) in F1. exact F1.
Qed.

(** A fetch without rendering calls [fetch] and reads the text, and
    nothing else: no call goes to the browser and [browserPromise] is
    left as it was. What it returns is the text, the final url and the
    status of the response. *)
Theorem static_fetch_uses_no_browser (net : Net) (u : jsstring) (st : State) :
  exists evs,
    made (snd (fetchPage net u false st)) = made st ++ evs
    /\ Forall (fun c => browser_call c = false) evs
    /\ browserPromise (snd (fetchPage net u false st)) = browserPromise st
    /\ (forall f, fst (fetchPage net u false st) = Returns f ->
          exists res,
            net_fetch net (made st) u = Returns res
            /\ net_text net (made st ++ [CFetch u]) = Returns (html f)
            /\ finalUrl f = res_url res /\ status f = res_status res).
Proof.
  run_fetch.
  - exists [CFetch u; CText]. rewrite <- app_assoc.
    split; [reflexivity|]. split; [repeat constructor|]. split; [reflexivity|].
    intros f [= <-]. eexists. split; [reflexivity|]. cbn. auto.
  - exists [CFetch u; CText]. rewrite <- app_assoc.
    split; [reflexivity|]. split; [repeat constructor|]. split; [reflexivity|].
    intros f [=].
  - exists [CFetch u].
    split; [reflexivity|]. split; [repeat constructor|]. split; [reflexivity|].
    intros f [=].
Qed.
Lemma closed_at_end_cons (c : Call) (cs : list Call) :
  closed_at_end cs -> closed_at_end (c :: cs).
Proof. intros (b & ->). exists (c :: b). reflexivity. Qed.

Lemma closed_at_end_base : closed_at_end [CClosePage; CCloseContext].
Proof. exists []. reflexivity. Qed.

Ltac not_among H :=
  exfalso;
  repeat (apply elem_of_cons in H as [H|H]; [discriminate H|]);
  apply elem_of_nil in H; exact H.

(** With rendering, once [page.goto] has been called the fetch ends by
    closing the page and the context, whether it returns or throws; the
    context is closed in no other case, so it stays open when no page
    could be made. A fetch that returns has made the eight calls of the
    straight path, after the launch if there was none, and each at most
    once. *)
Theorem page_and_context_closed (net : Net) (u : jsstring) (st : State) :
  exists evs,
    made (snd (fetchPage net u true st)) = made st ++ evs
    /\ (CGoto u ∈ evs -> closed_at_end evs)
    /\ (CCloseContext ∈ evs -> CGoto u ∈ evs)
    /\ (forall f, fst (fetchPage net u true st) = Returns f ->
          exists pre,
            (pre = [] \/ pre = [CLaunch])
            /\ evs = pre ++ [CNewContext; CNewPage; CGoto u; CWait; CContent;
                             CPageUrl; CClosePage; CCloseContext]).
Proof.
  run_fetch; repeat rewrite <- app_assoc; cbn [app];
    (eexists; split; [first [reflexivity | symmetry; apply app_nil_r]|]).
  all: split;
    [intros Hin;
     first [solve [repeat first [apply closed_at_end_base
                                | apply closed_at_end_cons]]
           | not_among Hin]|].
  all: split;
    [intros Hin;
     first [solve [repeat first [apply list_elem_of_here
                                | apply list_elem_of_further]]
           | not_among Hin]|].
  all: intros f Hf; try discriminate Hf.
  all: first [exists []; split; [left; reflexivity | reflexivity]
             | exists [CLaunch]; split; [right; reflexivity | reflexivity]].
Qed.

(** When the context is made and then no page can be, the fetch throws
    what [newPage] threw and calls nothing more: the context it has just
    made is not closed. *)
Theorem context_left_open_without_page (net : Net) (u msg : jsstring)
    (st : State) :
  browserPromise st = Some (Returns tt) ->
  net_newContext net (made st) = Returns tt ->
  net_newPage net (made st ++ [CNewContext]) = Throws msg ->
  fst (fetchPage net u true st) = Throws msg
  /\ made (snd (fetchPage net u true st)) = made st ++ [CNewContext; CNewPage]
  /\ CCloseContext ∉ [CNewContext; CNewPage].
Proof.
  intros Hb Hc Hp.
  unfold fetchPage, getBrowser, call, mbind, B_bind. cbn [negb].
  rewrite Hb, Hc. cbn [made]. rewrite Hp. cbn [fst snd made].
  rewrite <- app_assoc. split; [reflexivity|]. split; [reflexivity|].
  intros Hin. not_among Hin.
Qed.

Lemma context_left_open_without_page_witness :
  fst (fetchPage no_page_net (lit "https://example.com/") true (started no_page_net))
  = Throws (lit "Target closed")
  /\ made (snd (fetchPage no_page_net (lit "https://example.com/") true
                  (started no_page_net)))
     = made (started no_page_net) ++ [CNewContext; CNewPage]
  /\ CCloseContext ∉ [CNewContext; CNewPage].
Proof.
  apply (context_left_open_without_page no_page_net
           (lit "https://example.com/") (lit "Target closed")
           (started no_page_net)); reflexivity.
Defined.
End BrowserFacts.

(** ** The file name of the download *)

Section FrontendFacts.
Import Frontend.

Lemma underscore_slashes_no_slash (s : jsstring) :
  ~ In 47%N (underscore_slashes s).
Proof.
  unfold underscore_slashes. induction s as [|c s IH]; simpl; [tauto|].
  intros [H|H]; [|exact (IH H)].
  destruct (N.eqb_spec c 47); [discriminate | congruence].
Qed.

Lemma length_strip_scheme (s : jsstring) :
  (length (strip_scheme s) <= length s)%nat.
Proof.
  induction s as [|c s IH]; [reflexivity|].
  cbn [strip_scheme].
  destruct (starts_with _ (c :: s)); [rewrite length_drop; lia|].
  destruct (starts_with _ (c :: s)); [rewrite length_drop; lia|].
  simpl. lia.
Qed.

(** The name under which the result is downloaded holds no slash, is
    [scraped_], the url without its scheme and with every slash turned
    into an underscore, and [.json], and is at most thirteen code units
    longer than the url. *)
Theorem download_name_is_flat (url : jsstring) :
  ~ In 47%N (filename url)
  /\ (length (filename url) <= length url + 13)%nat
  /\ (forall rest,
        filename (lit "https://" ++ rest)
        = lit "scraped_" ++ underscore_slashes rest ++ lit ".json"
        /\ filename (lit "http://" ++ rest)
           = lit "scraped_" ++ underscore_slashes rest ++ lit ".json").
Proof.
  split; [|split].
  - unfold filename. rewrite !in_app_iff. intros [H|[H|H]].
    + vm_compute in H. repeat destruct H as [H|H]; try discriminate H; exact H.
    + exact (underscore_slashes_no_slash _ H).
    + vm_compute in H. repeat destruct H as [H|H]; try discriminate H; exact H.
  - unfold filename, underscore_slashes.
    rewrite !length_app, length_map.
    pose proof (length_strip_scheme url) as H.
    change (length (lit "scraped_")) with 8%nat.
    change (length (lit ".json")) with 5%nat. lia.
  - intros rest. unfold filename. split; reflexivity.
Qed.
End FrontendFacts.
